(** * MonacoDiffComponent: debounced suggestion trigger and lint reporting

    A shallow embedding of [ui/src/components/blocks/MonacoDiffComponent.js].

    The component is a React class with one mutable field ([this.timer]) and
    a state object ([this.state]).  Its two handlers, [onChange] and
    [editorDidMount], are called by the diff-editor widget; the handlers in
    turn call the two callbacks of the host application ([onValueChange] and
    [onLintError]), the browser's timer API and the editor.  The embedding
    keeps the mutable parts in an explicit [World] and records every call
    that leaves the component as a time-stamped [Effect]. *)

From Stdlib Require Import List String Ascii Arith NArith Lia Bool DecimalString.
From Stdlib Require DecimalN DecimalPos.
Import ListNotations.
Local Open Scope string_scope.
Local Open Scope list_scope.
Local Open Scope N_scope.

(** ** Data of the editor widget *)

Definition EditorId := N.
Definition TimerId := N.

(** One entry of [e.changes]; only [text] is read by the component. *)
Record Change := mkChange {
  text : string;
  rangeOffset : N;
  rangeLength : N
}.

(** The second argument of [onChange]. *)
Record ChangeEvent := mkChangeEvent {
  changes : list Change;
  versionId : N
}.

(** A diagnostic marker as returned by [monaco.editor.getModelMarkers].
    Line and column numbers are the positive integers of the editor, for
    which the string conversion of a template literal is the decimal
    numeral. *)
Record Marker := mkMarker {
  startLineNumber : N;
  startColumn : N;
  endLineNumber : N;
  endColumn : N;
  message : string
}.

(** What the component reads of a text model: [getModeId()] and [uri]. *)
Record TextModel := mkTextModel {
  modeId : string;
  uri : string
}.

(** The argument of [editorDidMount]. *)
Record DiffEditor := mkDiffEditor {
  diff_originalEditor : EditorId;
  diff_modifiedEditor : EditorId
}.

(** The answers of the editor framework at the moment an event is
    delivered: [ed.getModel()] and [monaco.editor.getModelMarkers]. *)
Record Monaco := mkMonaco {
  getModel : EditorId -> option TextModel;
  getModelMarkers : string -> string -> list Marker
}.

(** ** Template literals *)

Inductive JsValue :=
| JsNumber (n : N)
| JsString (s : string).

Inductive TemplatePart :=
| Cooked (s : string)
| Subst (v : JsValue).

Definition decimal (n : N) : string := NilZero.string_of_uint (N.to_uint n).

Definition ToString (v : JsValue) : string :=
  match v with
  | JsNumber n => decimal n
  | JsString s => s
  end.

Definition part_string (p : TemplatePart) : string :=
  match p with
  | Cooked s => s
  | Subst v => ToString v
  end.

Fixpoint template (parts : list TemplatePart) : string :=
  match parts with
  | [] => EmptyString
  | p :: rest => (part_string p ++ template rest)%string
  end.

(** The arrow function of lines 62-63. *)
Definition formatMarker (marker : Marker) : string :=
  template
    [ Cooked "Lint error on line "; Subst (JsNumber (startLineNumber marker));
      Cooked " columns "; Subst (JsNumber (startColumn marker));
      Cooked "-"; Subst (JsNumber (endColumn marker));
      Cooked ": "; Subst (JsString (message marker)) ].

(** [markers.map(formatMarker)] *)
Definition formatMarkers (markers : list Marker) : list string :=
  map formatMarker markers.

(** [triggerCharacters.includes(characterTyped)] on an array of strings. *)
Definition includes (xs : list string) (x : string) : bool :=
  existsb (String.eqb x) xs.

(** ** The component and its surroundings *)

(** [this.state] *)
Record State := mkState {
  debounceWait : N;
  modifiedEditor : option EditorId;
  triggerCharacters : list string
}.

(** The component instance: [this.timer] ([None] is [null]) and
    [this.state]. *)
Record Component := mkComponent {
  timer : option TimerId;
  state : State
}.

(** The closure passed to [setTimeout] (lines 38-43).  It captures the
    value of [modifiedEditor] that [onChange] destructured from
    [this.state], not the state at the time it runs. *)
Inductive Callback :=
| TriggerSuggest (captured : option EditorId).

(** An entry of the browser's table of active timers. *)
Record Timer := mkTimer {
  timer_id : TimerId;
  due : N;
  callback : Callback
}.

(** The component together with the parts of the page it acts on: the
    table of the active timers it has set, the id the next timer gets,
    the current time and the editors on which the decoration listener is
    registered.  Timers of other scripts of the page are not modelled;
    ids are never given twice, so the component cannot cancel them. *)
Record World := mkWorld {
  this : Component;
  timers : list Timer;
  next_timer_id : TimerId;
  clock : N;
  listeners : list EditorId
}.

Inductive JsError :=
| TypeError (msg : string).

(** Calls that leave the component. *)
Inductive Effect :=
| OnValueChange (newValue : string)
| OnLintError (messages : list string)
| GetModelMarkers (owner resource : string)
| EditorTrigger (editor : EditorId) (source handlerId : string)
| Uncaught (err : JsError).

Definition Trace := list (N * Effect).

Inductive completion (A : Type) :=
| Normal (a : A)
| Throw (err : JsError).
Arguments Normal {A} a.
Arguments Throw {A} err.

(** ** A state, trace and exception monad for handler bodies *)

Definition M (A : Type) : Type := World -> completion A * World * Trace.

Definition ret {A} (a : A) : M A := fun w => (Normal a, w, []).

Definition bind {A B} (m : M A) (k : A -> M B) : M B :=
  fun w =>
    match m w with
    | (Normal a, w1, tr1) =>
        match k a w1 with
        | (r, w2, tr2) => (r, w2, tr1 ++ tr2)
        end
    | (Throw err, w1, tr1) => (Throw err, w1, tr1)
    end.

Definition throw {A} (err : JsError) : M A := fun w => (Throw err, w, []).

Definition tell (eff : Effect) : M unit :=
  fun w => (Normal tt, w, [(clock w, eff)]).

Definition gets {A} (f : World -> A) : M A := fun w => (Normal (f w), w, []).

Definition modify (f : World -> World) : M unit := fun w => (Normal tt, f w, []).

Notation "x <- m ;; k" := (bind m (fun x => k))
  (at level 61, m at next level, right associativity).
Notation "m ;; k" := (bind m (fun _ => k))
  (at level 61, right associativity).

(** Field updates. *)
Definition with_this (c : Component) (w : World) : World :=
  mkWorld c (timers w) (next_timer_id w) (clock w) (listeners w).
Definition with_timers (ts : list Timer) (w : World) : World :=
  mkWorld (this w) ts (next_timer_id w) (clock w) (listeners w).
Definition with_next_timer_id (n : TimerId) (w : World) : World :=
  mkWorld (this w) (timers w) n (clock w) (listeners w).
Definition with_clock (t : N) (w : World) : World :=
  mkWorld (this w) (timers w) (next_timer_id w) t (listeners w).
Definition with_listeners (ls : list EditorId) (w : World) : World :=
  mkWorld (this w) (timers w) (next_timer_id w) (clock w) ls.

(** ** Browser timers *)

(** [setTimeout(cb, delay)]: a fresh id, due [delay] after the current
    time. *)
Definition setTimeout (cb : Callback) (delay : N) : M TimerId :=
  fun w =>
    let id := next_timer_id w in
    (Normal id,
     with_next_timer_id (N.succ id)
       (with_timers (timers w ++ [mkTimer id (clock w + delay) cb]) w),
     []).

Definition cancel (id : TimerId) (ts : list Timer) : list Timer :=
  filter (fun t => negb (timer_id t =? id)) ts.

(** [clearTimeout(handle)]: removes the timer of that id if it is still
    active; [null] and ids of timers that already ran are ignored. *)
Definition clearTimeout (handle : option TimerId) : M unit :=
  match handle with
  | None => ret tt
  | Some id => modify (fun w => with_timers (cancel id (timers w)) w)
  end.

(** ** The handlers *)

(** [this.onValueChange(newValue)] and [this.onLintError(messages)]. *)
Definition onValueChange (newValue : string) : M unit :=
  tell (OnValueChange newValue).
Definition onLintError (messages : list string) : M unit :=
  tell (OnLintError messages).

(** [xs[i].text]: reading a property of [undefined] throws. *)
Definition text_at (xs : list Change) (i : nat) : M string :=
  match nth_error xs i with
  | Some c => ret (text c)
  | None => throw (TypeError "Cannot read properties of undefined (reading 'text')")
  end.

(** [onChange(newValue, e)], lines 32-47. *)
Definition onChange (newValue : string) (e : ChangeEvent) : M unit :=
  st <- gets (fun w => state (this w)) ;;
  (if (0 <? List.length (changes e))%nat then
     characterTyped <- text_at (changes e) 0 ;;
     if includes (triggerCharacters st) characterTyped then
       handle <- gets (fun w => timer (this w)) ;;
       clearTimeout handle ;;
       id <- setTimeout (TriggerSuggest (modifiedEditor st)) (debounceWait st) ;;
       modify (fun w => with_this (mkComponent (Some id) (state (this w))) w)
     else ret tt
   else ret tt) ;;
  onValueChange newValue.

(** The body of the closure of lines 38-43, run when its timer fires. *)
Definition runCallback (cb : Callback) : M unit :=
  match cb with
  | TriggerSuggest (Some ed) =>
      tell (EditorTrigger ed "manual_trigger" "editor.action.triggerSuggest")
  | TriggerSuggest None =>
      throw (TypeError "Cannot read properties of null (reading 'trigger')")
  end.

(** The listener of lines 50-66. *)
Definition onDidChangeModelDecorations (monaco : Monaco) : M unit :=
  st <- gets (fun w => state (this w)) ;;
  match modifiedEditor st with
  | None => throw (TypeError "Cannot read properties of null (reading 'getModel')")
  | Some ed =>
      match getModel monaco ed with
      | None => ret tt
      | Some model =>
          if negb (modeId model =? "json")%string then ret tt
          else
            let owner := modeId model in
            let resource := uri model in
            tell (GetModelMarkers owner resource) ;;
            let markers := getModelMarkers monaco owner resource in
            onLintError (formatMarkers markers)
      end
  end.

(** [this.setState({ modifiedEditor })], applied at once. *)
Definition setModifiedEditor (ed : EditorId) : M unit :=
  modify (fun w =>
    let st := state (this w) in
    with_this
      (mkComponent (timer (this w))
         (mkState (debounceWait st) (Some ed) (triggerCharacters st))) w).

(** [editorDidMount(editor)], lines 49-70. *)
Definition editorDidMount (editor : DiffEditor) : M unit :=
  modify (fun w => with_listeners (listeners w ++ [diff_modifiedEditor editor]) w) ;;
  setModifiedEditor (diff_modifiedEditor editor).

(** The constructor, lines 18-30; [chars] is the result of
    [getMonacoTriggerCharacters()]. *)
Definition constructor (chars : list string) : Component :=
  mkComponent None (mkState 300 None chars).

(** ** The event loop *)

(** A handler runs as one task of the page.  An exception that escapes it
    is reported as uncaught; what the handler did before it stays done. *)
Definition task (m : M unit) (w : World) : World * Trace :=
  match m w with
  | (Normal _, w', tr) => (w', tr)
  | (Throw err, w', tr) => (w', tr ++ [(clock w', Uncaught err)])
  end.

(** Timers run in the order of their due times, equal ones in the order
    in which they were set. *)
Fixpoint insert_by_due (t : Timer) (ts : list Timer) : list Timer :=
  match ts with
  | [] => [t]
  | u :: rest =>
      if due t <=? due u then t :: u :: rest else u :: insert_by_due t rest
  end.

Fixpoint sort_by_due (ts : list Timer) : list Timer :=
  match ts with
  | [] => []
  | t :: rest => insert_by_due t (sort_by_due rest)
  end.

Definition active (id : TimerId) (ts : list Timer) : bool :=
  existsb (fun t => timer_id t =? id) ts.

(** A timer that is still active when its turn comes leaves the table and
    its callback runs.  The model lets it run exactly at its due time; a
    browser may run it later, never earlier. *)
Definition fire (t : Timer) (w : World) : World * Trace :=
  if active (timer_id t) (timers w) then
    task (runCallback (callback t))
      (with_clock (N.max (clock w) (due t))
         (with_timers (cancel (timer_id t) (timers w)) w))
  else (w, []).

Fixpoint fire_all (ts : list Timer) (w : World) : World * Trace :=
  match ts with
  | [] => (w, [])
  | t :: rest =>
      let '(w1, tr1) := fire t w in
      let '(w2, tr2) := fire_all rest w1 in
      (w2, tr1 ++ tr2)
  end.

(** [dt] units of time pass: every timer due by then runs. *)
Definition elapse (dt : N) (w : World) : World * Trace :=
  let target := clock w + dt in
  let ready := sort_by_due (filter (fun t => due t <=? target) (timers w)) in
  let '(w', tr) := fire_all ready w in
  (with_clock target w', tr).

(** A decoration change of editor [src] calls the listener once for every
    registration on [src]. *)
Fixpoint dispatch (ls : list EditorId) (src : EditorId) (monaco : Monaco)
    (w : World) : World * Trace :=
  match ls with
  | [] => (w, [])
  | ed :: rest =>
      if ed =? src then
        let '(w1, tr1) := task (onDidChangeModelDecorations monaco) w in
        let '(w2, tr2) := dispatch rest src monaco w1 in
        (w2, tr1 ++ tr2)
      else dispatch rest src monaco w
  end.

(** What can happen to a component. *)
Inductive Event :=
| EvChange (newValue : string) (e : ChangeEvent)
| EvMount (editor : DiffEditor)
| EvDecorations (src : EditorId) (monaco : Monaco)
| EvElapse (dt : N).

Definition step (ev : Event) (w : World) : World * Trace :=
  match ev with
  | EvChange newValue e => task (onChange newValue e) w
  | EvMount editor => task (editorDidMount editor) w
  | EvDecorations src monaco => dispatch (listeners w) src monaco w
  | EvElapse dt => elapse dt w
  end.

Fixpoint run (evs : list Event) (w : World) : World * Trace :=
  match evs with
  | [] => (w, [])
  | ev :: rest =>
      let '(w1, tr1) := step ev w in
      let '(w2, tr2) := run rest w1 in
      (w2, tr1 ++ tr2)
  end.

(** A freshly constructed component in a page whose time is [t0]. *)
Definition boot (chars : list string) (t0 : N) : World :=
  mkWorld (constructor chars) [] 1 t0 [].

Inductive reachable (chars : list string) : World -> Prop :=
| reach_boot (t0 : N) : reachable chars (boot chars t0)
| reach_step (ev : Event) (w : World) :
    reachable chars w -> reachable chars (fst (step ev w)).

(** ** Observations on worlds, events and traces *)

(** The change event passes both tests of [onChange]. *)
Definition qualifies (chars : list string) (e : ChangeEvent) : bool :=
  match changes e with
  | [] => false
  | c :: _ => includes chars (text c)
  end.

(** The text of the first insertion, if there is one. *)
Definition first_text (e : ChangeEvent) : option string :=
  match changes e with
  | [] => None
  | c :: _ => Some (text c)
  end.

(** [clearTimeout] on the timer table. *)
Definition clear (handle : option TimerId) (ts : list Timer) : list Timer :=
  match handle with
  | None => ts
  | Some id => cancel id ts
  end.

(** The world after the inner branch of [onChange] (lines 37-43). *)
Definition rescheduled (w : World) : World :=
  let st := state (this w) in
  mkWorld (mkComponent (Some (next_timer_id w)) st)
    (clear (timer (this w)) (timers w)
       ++ [mkTimer (next_timer_id w) (clock w + debounceWait st)
             (TriggerSuggest (modifiedEditor st))])
    (N.succ (next_timer_id w)) (clock w) (listeners w).

(** What holds of every world a component can be in: the table holds at
    most one timer, which is the one [this.timer] names; ids of the table
    are older than the next id and no timer of the table is overdue; the
    constructor's delay and trigger
    characters are still in the state; a registered listener comes with a
    mounted editor. *)
Definition Inv (chars : list string) (w : World) : Prop :=
  (timers w = [] \/
   exists t, timers w = [t] /\ timer (this w) = Some (timer_id t))
  /\ Forall (fun t => timer_id t < next_timer_id w) (timers w)
  /\ Forall (fun t => clock w <= due t) (timers w)
  /\ debounceWait (state (this w)) = 300
  /\ triggerCharacters (state (this w)) = chars
  /\ (listeners w <> [] -> modifiedEditor (state (this w)) <> None).

(** A burst of keystrokes: each change is followed by a pause. *)
Definition Key : Type := string * ChangeEvent * N.

Definition key_events (key : Key) : list Event :=
  let '(newValue, e, gap) := key in [EvChange newValue e; EvElapse gap].

Definition burst (keys : list Key) : list Event := flat_map key_events keys.

Fixpoint span (keys : list Key) : N :=
  match keys with
  | [] => 0
  | (_, _, gap) :: rest => gap + span rest
  end.

(** A qualifying keystroke followed by a pause shorter than the delay. *)
Definition rapid (chars : list string) (key : Key) : Prop :=
  let '(_, e, gap) := key in qualifies chars e = true /\ gap < 300.

(** The model the listener would look at. *)
Definition current_model (monaco : Monaco) (w : World) : option TextModel :=
  match modifiedEditor (state (this w)) with
  | Some ed => getModel monaco ed
  | None => None
  end.

(** The model is absent or not of content type json. *)
Definition model_unfit (monaco : Monaco) (w : World) : Prop :=
  current_model monaco w = None \/
  exists model, current_model monaco w = Some model /\ modeId model <> "json".

(** What a fired trigger does with the handle it captured. *)
Definition firing (t : N) (captured : option EditorId) : N * Effect :=
  match captured with
  | Some ed => (t, EditorTrigger ed "manual_trigger" "editor.action.triggerSuggest")
  | None => (t, Uncaught (TypeError "Cannot read properties of null (reading 'trigger')"))
  end.


(** What [onChange] can alter of the scheduling. *)
Definition scheduling (w : World) : option TimerId * list Timer * TimerId :=
  (timer (this w), timers w, next_timer_id w).

Definition is_trigger (x : N * Effect) : bool :=
  match snd x with
  | EditorTrigger _ _ _ => true
  | _ => false
  end.

Definition is_uncaught (x : N * Effect) : bool :=
  match snd x with
  | Uncaught _ => true
  | _ => false
  end.

Definition is_lint_report (x : N * Effect) : bool :=
  match snd x with
  | OnLintError _ => true
  | _ => false
  end.

Definition is_value_change (x : N * Effect) : bool :=
  match snd x with
  | OnValueChange _ => true
  | _ => false
  end.

(** The suggestion requests of a trace. *)
Definition fired (tr : Trace) : Trace := filter is_trigger tr.

Definition keystroke (s : string) : ChangeEvent :=
  mkChangeEvent [mkChange s 0 0] 1.

(** The one-character string holding a double quote. *)
Definition dquote : string := String "034"%char EmptyString.

Definition suggest (t : N) (ed : EditorId) : N * Effect :=
  (t, EditorTrigger ed "manual_trigger" "editor.action.triggerSuggest").

(** ** Observations on whole runs *)

(** The texts that the change events of a run carry, in order. *)
Fixpoint values_of (evs : list Event) : list string :=
  match evs with
  | [] => []
  | EvChange newValue _ :: rest => newValue :: values_of rest
  | _ :: rest => values_of rest
  end.

(** The texts with which a trace calls the value-change callback. *)
Definition value_changes (tr : Trace) : list string :=
  flat_map (fun x => match snd x with
                     | OnValueChange v => [v]
                     | _ => []
                     end) tr.

(** The modified editors that the mount events of a run bring. *)
Fixpoint mounted (evs : list Event) : list EditorId :=
  match evs with
  | [] => []
  | EvMount editor :: rest => diff_modifiedEditor editor :: mounted rest
  | _ :: rest => mounted rest
  end.

(** The handle after a run that starts with handle [init]. *)
Fixpoint handle_after (init : option EditorId) (evs : list Event)
    : option EditorId :=
  match evs with
  | [] => init
  | EvMount editor :: rest =>
      handle_after (Some (diff_modifiedEditor editor)) rest
  | _ :: rest => handle_after init rest
  end.

(** No trigger character is typed before the editor is mounted. *)
Fixpoint guarded (chars : list string) (is_mounted : bool)
    (evs : list Event) : bool :=
  match evs with
  | [] => true
  | EvMount _ :: rest => guarded chars true rest
  | EvChange _ e :: rest =>
      (is_mounted || negb (qualifies chars e)) && guarded chars is_mounted rest
  | _ :: rest => guarded chars is_mounted rest
  end.

(** The number of qualifying change events of a run. *)
Fixpoint count_qualifying (chars : list string) (evs : list Event) : nat :=
  match evs with
  | [] => 0
  | EvChange _ e :: rest =>
      ((if qualifies chars e then 1 else 0) + count_qualifying chars rest)%nat
  | _ :: rest => count_qualifying chars rest
  end.

(** What a timer leaves in a trace when it runs. *)
Definition is_timer_run (x : N * Effect) : bool :=
  is_trigger x || is_uncaught x.

(** How often the listener is registered on editor [src]. *)
Definition registrations (src : EditorId) (ls : list EditorId) : nat :=
  List.length (filter (fun ed => ed =? src) ls).

(** The two calls of the listener on a json model. *)
Definition lint_report (t : N) (monaco : Monaco) (model : TextModel) : Trace :=
  [(t, GetModelMarkers "json" (uri model));
   (t, OnLintError (formatMarkers (getModelMarkers monaco "json" (uri model))))].

Definition is_digit (a : ascii) : bool :=
  existsb (Ascii.eqb a)
    ["0"; "1"; "2"; "3"; "4"; "5"; "6"; "7"; "8"; "9"]%char.

Fixpoint all_digits (s : string) : bool :=
  match s with
  | EmptyString => true
  | String a rest => is_digit a && all_digits rest
  end.

(** No pending trigger holds an absent handle. *)
Definition armed_safely (w : World) : Prop :=
  Forall (fun t => callback t <> TriggerSuggest None) (timers w).

(** The handle of the state and the handles held by pending triggers are
    among [known]. *)
Definition known_handles (known : list EditorId) (w : World) : Prop :=
  (forall ed, modifiedEditor (state (this w)) = Some ed -> In ed known)
  /\ (forall t ed,
        In t (timers w) -> callback t = TriggerSuggest (Some ed) -> In ed known).

(** Every suggestion request of the trace is the manual trigger of the
    suggest action, on an editor among [known]. *)
Definition requests_within (known : list EditorId) (tr : Trace) : Prop :=
  forall t ed source handlerId,
    In (t, EditorTrigger ed source handlerId) tr ->
    source = "manual_trigger"
    /\ handlerId = "editor.action.triggerSuggest"
    /\ In ed known.

(** No pending trigger is due later than one delay from now. *)
Definition prompt (w : World) : Prop :=
  Forall (fun t => due t <= clock w + 300) (timers w).

(** The time an event lets pass. *)
Definition elapsed (ev : Event) : N :=
  match ev with
  | EvElapse dt => dt
  | _ => 0
  end.

(** The times at which the qualifying change events of a run arrive,
    when the run starts at time [start]. *)
Fixpoint qualifying_times (chars : list string) (start : N)
    (evs : list Event) : list N :=
  match evs with
  | [] => []
  | ev :: rest =>
      match ev with
      | EvChange _ e => if qualifies chars e then [start] else []
      | _ => []
      end ++ qualifying_times chars (start + elapsed ev) rest
  end.

(** Every pending trigger is due one delay after one of the times
    [past]. *)
Definition due_after (past : list N) (w : World) : Prop :=
  forall t, In t (timers w) -> exists c, In c past /\ due t = c + 300.

(** Every run of a timer in the trace is stamped one delay after one of
    the times [past]. *)
Definition runs_after (past : list N) (tr : Trace) : Prop :=
  forall x, In x tr -> is_timer_run x = true ->
            exists c, In c past /\ fst x = c + 300.

(** * Properties *)

(** ** Running the model *)

Example format_example :
  formatMarkers [mkMarker 3 5 3 9 "bad token"]
  = ["Lint error on line 3 columns 5-9: bad token"].
Proof. reflexivity. Qed.

Example debounce_example :
  snd (run [EvMount (mkDiffEditor 1 2); EvChange "a" (keystroke dquote);
            EvElapse 100; EvChange "b" (keystroke ":"); EvElapse 1000]
         (boot [dquote; ":"] 0))
  = [(0, OnValueChange "a"); (100, OnValueChange "b"); suggest 400 2].
Proof. vm_compute. reflexivity. Qed.

Example unmounted_example :
  snd (run [EvChange "a" (keystroke ":"); EvMount (mkDiffEditor 1 2);
            EvElapse 300]
         (boot [":"] 0))
  = [(0, OnValueChange "a"); firing 300 None].
Proof. vm_compute. reflexivity. Qed.

(** ** Equations of the handlers *)

Lemma onChange_eq newValue e w :
  onChange newValue e w
  = (Normal tt,
     (if qualifies (triggerCharacters (state (this w))) e
      then rescheduled w else w),
     [(clock w, OnValueChange newValue)]).
Proof.
  unfold onChange, qualifies, bind, gets. simpl.
  destruct (changes e) as [|c rest]; simpl; [reflexivity|].
  destruct (includes _ (text c)); simpl; [|reflexivity].
  unfold rescheduled, clear.
  destruct (timer (this w)); reflexivity.
Qed.

Lemma step_change newValue e w :
  step (EvChange newValue e) w
  = ((if qualifies (triggerCharacters (state (this w))) e
      then rescheduled w else w),
     [(clock w, OnValueChange newValue)]).
Proof. simpl. unfold task. rewrite onChange_eq. reflexivity. Qed.

Lemma listener_world monaco w :
  snd (fst (onDidChangeModelDecorations monaco w)) = w.
Proof.
  unfold onDidChangeModelDecorations, bind, gets. simpl.
  destruct (modifiedEditor (state (this w))) as [ed|]; simpl; [|reflexivity].
  destruct (getModel monaco ed) as [model|]; simpl; [|reflexivity].
  destruct (modeId model =? "json")%string; reflexivity.
Qed.

Lemma listener_task_world monaco w :
  fst (task (onDidChangeModelDecorations monaco) w) = w.
Proof.
  unfold task.
  pose proof (listener_world monaco w) as H.
  destruct (onDidChangeModelDecorations monaco w) as [[[u|err] w'] tr];
    simpl in *; exact H.
Qed.

Lemma dispatch_world ls src monaco w :
  fst (dispatch ls src monaco w) = w.
Proof.
  induction ls as [|ed rest IH]; simpl; [reflexivity|].
  destruct (ed =? src); [|exact IH].
  pose proof (listener_task_world monaco w) as H.
  destruct (task (onDidChangeModelDecorations monaco) w) as [w1 tr1].
  simpl in H. subst w1.
  destruct (dispatch rest src monaco w) as [w2 tr2]. exact IH.
Qed.

Lemma run_cons ev rest w :
  run (ev :: rest) w
  = (fst (run rest (fst (step ev w))),
     snd (step ev w) ++ snd (run rest (fst (step ev w)))).
Proof.
  simpl. destruct (step ev w) as [w1 tr1]. simpl.
  destruct (run rest w1) as [w2 tr2]. reflexivity.
Qed.

Lemma run_app evs1 evs2 w :
  run (evs1 ++ evs2) w
  = (fst (run evs2 (fst (run evs1 w))),
     snd (run evs1 w) ++ snd (run evs2 (fst (run evs1 w)))).
Proof.
  revert w. induction evs1 as [|ev rest IH]; intro w.
  - simpl. destruct (run evs2 w). reflexivity.
  - rewrite <- app_comm_cons, !run_cons, IH. simpl.
    rewrite app_assoc. reflexivity.
Qed.

(** ** Timers of a world with at most one of them *)

Lemma elapse_idle dt w :
  timers w = [] -> elapse dt w = (with_clock (clock w + dt) w, []).
Proof. intro H. unfold elapse. rewrite H. reflexivity. Qed.

Lemma elapse_single dt w t :
  timers w = [t] ->
  elapse dt w
  = if due t <=? clock w + dt
    then (with_clock (clock w + dt) (with_timers [] w),
          [match callback t with
           | TriggerSuggest captured => firing (N.max (clock w) (due t)) captured
           end])
    else (with_clock (clock w + dt) w, []).
Proof.
  intro H. unfold elapse. rewrite H. simpl.
  destruct (due t <=? clock w + dt); simpl; [|reflexivity].
  unfold fire, active, cancel. rewrite H. simpl.
  rewrite N.eqb_refl. simpl.
  destruct (callback t) as [[ed|]]; reflexivity.
Qed.

Lemma rescheduled_timers chars w :
  Inv chars w ->
  timers (rescheduled w)
  = [mkTimer (next_timer_id w) (clock w + 300)
       (TriggerSuggest (modifiedEditor (state (this w))))].
Proof.
  intros (Hone & _ & _ & Hwait & _). unfold rescheduled. simpl. rewrite Hwait.
  destruct Hone as [H | (t & H & Hthis)].
  - rewrite H. destruct (timer (this w)); reflexivity.
  - rewrite H, Hthis. simpl. unfold cancel. simpl.
    rewrite N.eqb_refl. reflexivity.
Qed.

(** ** The invariant *)

Lemma Inv_boot chars t0 : Inv chars (boot chars t0).
Proof.
  unfold Inv, boot. simpl.
  split; [left; reflexivity|].
  split; [constructor|].
  split; [constructor|].
  split; [reflexivity|].
  split; [reflexivity|].
  intro H. contradiction H. reflexivity.
Qed.

Lemma Inv_rescheduled chars w : Inv chars w -> Inv chars (rescheduled w).
Proof.
  intro HI. pose proof (rescheduled_timers _ _ HI) as Hts.
  destruct HI as (_ & _ & _ & Hwait & Hchars & Hls).
  unfold Inv. rewrite Hts. repeat split.
  - right. eexists. split; reflexivity.
  - constructor; [simpl; lia | constructor].
  - constructor; [simpl; lia | constructor].
  - exact Hwait.
  - exact Hchars.
  - exact Hls.
Qed.

Lemma Inv_mount chars editor w :
  Inv chars w -> Inv chars (fst (step (EvMount editor) w)).
Proof.
  intros (Hone & Hids & Hdue & Hwait & Hchars & _).
  unfold Inv. simpl. repeat split; auto. discriminate.
Qed.

Lemma Inv_elapse chars dt w : Inv chars w -> Inv chars (fst (elapse dt w)).
Proof.
  intros (Hone & Hids & Hdue & Hwait & Hchars & Hls).
  destruct Hone as [H | (t & H & Hthis)].
  - rewrite (elapse_idle _ _ H). unfold Inv. simpl. rewrite H.
    repeat split; auto.
  - rewrite (elapse_single _ _ _ H).
    destruct (due t <=? clock w + dt) eqn:Hready; unfold Inv; simpl.
    + repeat split; auto.
    + rewrite H in *. apply N.leb_gt in Hready.
      repeat split; auto.
      * right. exists t. auto.
      * constructor; [lia | constructor].
Qed.

Lemma Inv_step chars ev w : Inv chars w -> Inv chars (fst (step ev w)).
Proof.
  intro HI. destruct ev as [newValue e | editor | src monaco | dt].
  - rewrite step_change. simpl.
    destruct (qualifies _ e); [apply Inv_rescheduled|]; exact HI.
  - apply Inv_mount. exact HI.
  - simpl. rewrite dispatch_world. exact HI.
  - apply Inv_elapse. exact HI.
Qed.

Lemma Inv_run chars evs w : Inv chars w -> Inv chars (fst (run evs w)).
Proof.
  revert w. induction evs as [|ev rest IH]; intros w HI.
  - exact HI.
  - rewrite run_cons. simpl. apply IH, Inv_step, HI.
Qed.

Lemma reachable_Inv chars w : reachable chars w -> Inv chars w.
Proof.
  induction 1 as [t0 | ev w _ IH].
  - apply Inv_boot.
  - apply Inv_step. exact IH.
Qed.

Lemma reachable_run chars evs w :
  reachable chars w -> reachable chars (fst (run evs w)).
Proof.
  revert w. induction evs as [|ev rest IH]; intros w Hw.
  - exact Hw.
  - rewrite run_cons. simpl. apply IH. constructor. exact Hw.
Qed.

(** ** The lint marker formatter *)

Lemma append_empty_r (s : string) : (s ++ EmptyString)%string = s.
Proof. induction s as [|a s IH]; simpl; [|rewrite IH]; reflexivity. Qed.

Lemma formatMarker_shape marker :
  formatMarker marker
  = ("Lint error on line " ++ decimal (startLineNumber marker)
     ++ " columns " ++ decimal (startColumn marker)
     ++ "-" ++ decimal (endColumn marker)
     ++ ": " ++ message marker)%string.
Proof.
  unfold formatMarker, template, part_string, ToString.
  rewrite append_empty_r. reflexivity.
Qed.

(** C4: the lint marker formatter is a total function that yields, in
    the order of its input, one string per marker, of the shape
    "Lint error on line {start} columns {startCol}-{endCol}: {message}";
    the marker of line 3, columns 5 to 9, with message "bad token" gives
    "Lint error on line 3 columns 5-9: bad token", and no markers give no
    strings. *)
Theorem C4_formatMarkers_shape_and_order :
  forall markers : list Marker,
    List.length (formatMarkers markers) = List.length markers
    /\ (forall i, nth_error (formatMarkers markers) i
                  = option_map formatMarker (nth_error markers i))
    /\ (forall marker,
          formatMarker marker
          = ("Lint error on line " ++ decimal (startLineNumber marker)
             ++ " columns " ++ decimal (startColumn marker)
             ++ "-" ++ decimal (endColumn marker)
             ++ ": " ++ message marker)%string)
    /\ (forall endLine,
          formatMarkers [mkMarker 3 5 endLine 9 "bad token"]
          = ["Lint error on line 3 columns 5-9: bad token"])
    /\ formatMarkers [] = [].
Proof.
  intro markers. unfold formatMarkers.
  split; [apply length_map|].
  split; [intro i; apply nth_error_map|].
  split; [exact formatMarker_shape|].
  split; [intro endLine|]; reflexivity.
Qed.

(** ** Change events *)

(** C5: a change event with an empty insertion list schedules nothing
    and raises nothing: [onChange] completes normally, the world and so
    its pending timers are as before, and the only call made is the
    value-change callback. *)
Theorem C5_empty_insertions_schedule_nothing :
  forall (w : World) (newValue : string) (e : ChangeEvent),
    changes e = [] ->
    onChange newValue e w = (Normal tt, w, [(clock w, OnValueChange newValue)])
    /\ timers (fst (step (EvChange newValue e) w)) = timers w
    /\ scheduling (fst (step (EvChange newValue e) w)) = scheduling w
    /\ filter is_uncaught (snd (step (EvChange newValue e) w)) = [].
Proof.
  intros w newValue e Hempty.
  assert (Hq : qualifies (triggerCharacters (state (this w))) e = false)
    by (unfold qualifies; rewrite Hempty; reflexivity).
  rewrite step_change, onChange_eq, Hq. simpl. auto.
Qed.

Lemma C5_empty_insertions_witness :
  timers (fst (step (EvChange "{}" (mkChangeEvent [] 7))
                 (rescheduled (boot [":"] 0))))
  = timers (rescheduled (boot [":"] 0)).
Proof.
  apply (C5_empty_insertions_schedule_nothing
           (rescheduled (boot [":"] 0)) "{}" (mkChangeEvent [] 7)).
  reflexivity.
Defined.

(** C6: every change event calls the value-change callback, once, with
    the new text as it came: whether or not a trigger was scheduled, and
    also when the text is the same as that of the event before. *)
Theorem C6_value_change_forwarded_unconditionally :
  forall (w : World) (newValue : string) (e : ChangeEvent),
    (exists w',
        onChange newValue e w
        = (Normal tt, w', [(clock w, OnValueChange newValue)]))
    /\ snd (step (EvChange newValue e) w) = [(clock w, OnValueChange newValue)]
    /\ (forall e2,
          snd (run [EvChange newValue e; EvChange newValue e2] w)
          = [(clock w, OnValueChange newValue);
             (clock w, OnValueChange newValue)]).
Proof.
  intros w newValue e.
  split; [rewrite onChange_eq; eexists; reflexivity|].
  split; [rewrite step_change; reflexivity|].
  intro e2. rewrite !run_cons, !step_change. simpl.
  destruct (qualifies _ e); reflexivity.
Qed.

(** C8: of a change event only the text of the first insertion decides
    the scheduling: two events with non-empty insertion lists whose first
    insertions carry the same text leave the component and the timer
    table in the same world. *)
Theorem C8_only_first_insertion_text_inspected :
  forall (w : World) (newValue1 newValue2 : string) (e1 e2 : ChangeEvent)
         (c1 c2 : Change) (rest1 rest2 : list Change),
    changes e1 = c1 :: rest1 ->
    changes e2 = c2 :: rest2 ->
    text c1 = text c2 ->
    fst (step (EvChange newValue1 e1) w) = fst (step (EvChange newValue2 e2) w)
    /\ scheduling (fst (step (EvChange newValue1 e1) w))
       = scheduling (fst (step (EvChange newValue2 e2) w)).
Proof.
  intros w newValue1 newValue2 e1 e2 c1 c2 rest1 rest2 H1 H2 Htext.
  assert (Hq : forall chars, qualifies chars e1 = qualifies chars e2).
  { intro chars. unfold qualifies. rewrite H1, H2, Htext. reflexivity. }
  rewrite !step_change, Hq. simpl. split; reflexivity.
Qed.

Lemma C8_only_first_insertion_witness :
  scheduling
    (fst (step (EvChange "a:" (mkChangeEvent [mkChange ":" 1 0] 2))
            (boot [":"] 0)))
  = scheduling
      (fst (step (EvChange "b:c"
                    (mkChangeEvent [mkChange ":" 5 3; mkChange "zz" 0 0] 9))
              (boot [":"] 0))).
Proof.
  apply (C8_only_first_insertion_text_inspected (boot [":"] 0) "a:" "b:c"
           (mkChangeEvent [mkChange ":" 1 0] 2)
           (mkChangeEvent [mkChange ":" 5 3; mkChange "zz" 0 0] 9)
           (mkChange ":" 1 0) (mkChange ":" 5 3) [] [mkChange "zz" 0 0]);
    reflexivity.
Defined.

Lemma qualifies_first_text chars e s :
  first_text e = Some s -> qualifies chars e = includes chars s.
Proof.
  unfold first_text, qualifies. destruct (changes e) as [|c rest]; intro H.
  - discriminate H.
  - injection H as <-. reflexivity.
Qed.

Lemma Inv_pending chars w t :
  Inv chars w -> In t (timers w) ->
  timers w = [t] /\ timer (this w) = Some (timer_id t)
  /\ timer_id t < next_timer_id w /\ clock w <= due t.
Proof.
  intros (Hone & Hids & Hdue & _) Hin.
  destruct Hone as [H | (u & H & Hthis)]; rewrite H in *.
  - contradiction Hin.
  - destruct Hin as [<- | []].
    inversion Hids; subst. inversion Hdue; subst. auto.
Qed.

(** C9: a change event that does not qualify (no insertion, or a first
    insertion whose text is no trigger character) leaves the world as it
    is, so a pending trigger is neither cancelled nor set anew: it runs
    at the time it was due, and not before. *)
Theorem C9_non_qualifying_change_keeps_pending_trigger :
  forall (chars : list string) (w : World) (newValue : string)
         (e : ChangeEvent),
    reachable chars w ->
    (changes e = [] \/
     exists c rest, changes e = c :: rest /\ includes chars (text c) = false) ->
    step (EvChange newValue e) w = (w, [(clock w, OnValueChange newValue)])
    /\ forall t dt,
         In t (timers w) ->
         (due t <= clock w + dt ->
          snd (run [EvChange newValue e; EvElapse dt] w)
          = [(clock w, OnValueChange newValue);
             match callback t with
             | TriggerSuggest captured => firing (due t) captured
             end])
         /\ (clock w + dt < due t ->
             run [EvChange newValue e; EvElapse dt] w
             = (with_clock (clock w + dt) w,
                [(clock w, OnValueChange newValue)])).
Proof.
  intros chars w newValue e Hreach Hno.
  pose proof (reachable_Inv _ _ Hreach) as HI.
  assert (Hchars : triggerCharacters (state (this w)) = chars) by apply HI.
  assert (Hq : qualifies (triggerCharacters (state (this w))) e = false).
  { rewrite Hchars. unfold qualifies.
    destruct Hno as [H | (c & rest & H & Hc)]; rewrite H; auto. }
  assert (Hstep : step (EvChange newValue e) w
                  = (w, [(clock w, OnValueChange newValue)])).
  { rewrite step_change, Hq. reflexivity. }
  split; [exact Hstep|].
  intros t dt Hin.
  destruct (Inv_pending _ _ _ HI Hin) as (Hts & _ & _ & Hdue).
  assert (Hrun : run [EvChange newValue e; EvElapse dt] w
                 = (fst (elapse dt w),
                    (clock w, OnValueChange newValue) :: snd (elapse dt w))).
  { rewrite run_cons, Hstep. simpl. destruct (elapse dt w).
    rewrite app_nil_r. reflexivity. }
  rewrite Hrun, (elapse_single _ _ _ Hts).
  split; intro Hcmp.
  - apply N.leb_le in Hcmp. rewrite Hcmp. simpl.
    rewrite (N.max_r _ _ Hdue). reflexivity.
  - apply N.leb_gt in Hcmp. rewrite Hcmp. simpl. reflexivity.
Qed.

Lemma C9_non_qualifying_change_witness :
  snd (run [EvChange "ax" (keystroke "x"); EvElapse 300]
         (fst (step (EvChange "a" (keystroke ":")) (boot [":"] 0))))
  = [(0, OnValueChange "ax"); firing 300 None].
Proof.
  destruct (C9_non_qualifying_change_keeps_pending_trigger [":"]
              (fst (step (EvChange "a" (keystroke ":")) (boot [":"] 0)))
              "ax" (keystroke "x")
              (reach_step _ _ _ (reach_boot _ 0))
              (or_intror (ex_intro _ (mkChange "x" 0 0)
                            (ex_intro _ [] (conj eq_refl eq_refl)))))
    as [_ Hfires].
  apply (Hfires (mkTimer 1 300 (TriggerSuggest None)) 300).
  - left. reflexivity.
  - vm_compute. discriminate.
Defined.

(** C1: in every world a component can reach at most one trigger is
    pending.  A change event whose first insertion is a trigger character
    cancels whatever was pending and leaves exactly the timer it sets,
    due one delay later and named by [this.timer]. *)
Theorem C1_at_most_one_pending_trigger :
  forall (chars : list string) (w : World),
    reachable chars w ->
    (List.length (timers w) <= 1)%nat
    /\ forall newValue e s,
         first_text e = Some s -> includes chars s = true ->
         let w' := fst (step (EvChange newValue e) w) in
         timers w'
         = [mkTimer (next_timer_id w) (clock w + 300)
              (TriggerSuggest (modifiedEditor (state (this w))))]
         /\ timer (this w') = Some (next_timer_id w)
         /\ (forall t, In t (timers w) -> ~ In t (timers w'))
         /\ reachable chars w'.
Proof.
  intros chars w Hreach.
  pose proof (reachable_Inv _ _ Hreach) as HI.
  split.
  - destruct HI as ([H | (t & H & _)] & _); rewrite H; simpl; lia.
  - intros newValue e s Hfirst Hin w'.
    assert (Hchars : triggerCharacters (state (this w)) = chars) by apply HI.
    assert (Hw' : w' = rescheduled w).
    { unfold w'. rewrite step_change, Hchars.
      rewrite (qualifies_first_text _ _ _ Hfirst), Hin. reflexivity. }
    rewrite Hw', (rescheduled_timers _ _ HI).
    split; [reflexivity|].
    split; [reflexivity|].
    split.
    + intros t Ht [Heq | []].
      destruct (Inv_pending _ _ _ HI Ht) as (_ & _ & Hid & _).
      rewrite <- Heq in Hid. simpl in Hid. lia.
    + rewrite <- Hw'. unfold w'. constructor. exact Hreach.
Qed.

Lemma C1_at_most_one_pending_witness :
  timers (fst (step (EvChange "b" (keystroke ":"))
                 (fst (step (EvChange "a" (keystroke ":")) (boot [":"] 5)))))
  = [mkTimer 2 305 (TriggerSuggest None)].
Proof.
  destruct (C1_at_most_one_pending_trigger [":"]
              (fst (step (EvChange "a" (keystroke ":")) (boot [":"] 5)))
              (reach_step _ _ _ (reach_boot _ 5)))
    as [_ Hnext].
  apply (Hnext "b" (keystroke ":") ":"); reflexivity.
Defined.

(** ** Decoration changes *)

Lemma listener_unfit monaco w ed :
  modifiedEditor (state (this w)) = Some ed ->
  model_unfit monaco w ->
  onDidChangeModelDecorations monaco w = (Normal tt, w, []).
Proof.
  intros Hed Hunfit.
  unfold model_unfit, current_model in Hunfit. rewrite Hed in Hunfit.
  unfold onDidChangeModelDecorations, bind, gets. simpl. rewrite Hed.
  destruct Hunfit as [Hnone | (model & Hsome & Hmode)].
  - rewrite Hnone. reflexivity.
  - rewrite Hsome. apply String.eqb_neq in Hmode. rewrite Hmode. reflexivity.
Qed.

Lemma listener_json monaco w ed model :
  modifiedEditor (state (this w)) = Some ed ->
  getModel monaco ed = Some model ->
  modeId model = "json" ->
  onDidChangeModelDecorations monaco w
  = (Normal tt, w,
     [(clock w, GetModelMarkers "json" (uri model));
      (clock w,
       OnLintError (formatMarkers (getModelMarkers monaco "json" (uri model))))]).
Proof.
  intros Hed Hmodel Hmode.
  unfold onDidChangeModelDecorations, bind, gets. simpl.
  rewrite Hed, Hmodel, Hmode. reflexivity.
Qed.

Lemma dispatch_quiet ls src monaco w :
  task (onDidChangeModelDecorations monaco) w = (w, []) ->
  dispatch ls src monaco w = (w, []).
Proof.
  intro Htask. induction ls as [|ed rest IH]; simpl; [reflexivity|].
  destruct (ed =? src); [|exact IH].
  rewrite Htask, IH. reflexivity.
Qed.

(** C7: when the editor model is absent, or is not of content type json,
    a decoration change has no effect: the world is as before, the
    listener returns normally, no markers are read and the lint-error
    callback is not called. *)
Theorem C7_unfit_model_no_action :
  forall (chars : list string) (w : World) (src : EditorId) (monaco : Monaco),
    reachable chars w ->
    model_unfit monaco w ->
    step (EvDecorations src monaco) w = (w, [])
    /\ (forall ed,
          modifiedEditor (state (this w)) = Some ed ->
          onDidChangeModelDecorations monaco w = (Normal tt, w, [])).
Proof.
  intros chars w src monaco Hreach Hunfit.
  split; [|intros ed Hed; exact (listener_unfit _ _ _ Hed Hunfit)].
  simpl.
  destruct (modifiedEditor (state (this w))) as [ed|] eqn:Hed.
  - apply dispatch_quiet. unfold task.
    rewrite (listener_unfit _ _ _ Hed Hunfit). reflexivity.
  - pose proof (reachable_Inv _ _ Hreach) as (_ & _ & _ & _ & _ & Hls).
    destruct (listeners w) as [|l ls]; [reflexivity|].
    exfalso. apply Hls; [discriminate | exact Hed].
Qed.

Lemma C7_unfit_model_witness :
  step (EvDecorations 2
          (mkMonaco (fun _ => Some (mkTextModel "yaml" "inmemory://model/1"))
             (fun _ _ => [mkMarker 1 1 1 2 "x"])))
    (fst (step (EvMount (mkDiffEditor 1 2)) (boot [":"] 0)))
  = (fst (step (EvMount (mkDiffEditor 1 2)) (boot [":"] 0)), []).
Proof.
  apply (C7_unfit_model_no_action [":"]
           (fst (step (EvMount (mkDiffEditor 1 2)) (boot [":"] 0))) 2
           (mkMonaco (fun _ => Some (mkTextModel "yaml" "inmemory://model/1"))
              (fun _ _ => [mkMarker 1 1 1 2 "x"]))).
  - apply reach_step. apply reach_boot.
  - right. exists (mkTextModel "yaml" "inmemory://model/1").
    split; [reflexivity | discriminate].
Defined.

(** C10: when the editor model is present and of content type json, a
    decoration change reads the markers of that model and calls the
    lint-error callback once, with the formatted list of all of them: the
    empty list when there are none. *)
Theorem C10_json_model_reports_all_markers :
  forall (w : World) (monaco : Monaco) (ed : EditorId) (model : TextModel),
    modifiedEditor (state (this w)) = Some ed ->
    getModel monaco ed = Some model ->
    modeId model = "json" ->
    let markers := getModelMarkers monaco "json" (uri model) in
    onDidChangeModelDecorations monaco w
    = (Normal tt, w,
       [(clock w, GetModelMarkers "json" (uri model));
        (clock w, OnLintError (formatMarkers markers))])
    /\ (forall src,
          listeners w = [src] ->
          filter is_lint_report (snd (step (EvDecorations src monaco) w))
          = [(clock w, OnLintError (formatMarkers markers))])
    /\ (markers = [] ->
        forall src,
          listeners w = [src] ->
          filter is_lint_report (snd (step (EvDecorations src monaco) w))
          = [(clock w, OnLintError [])]).
Proof.
  intros w monaco ed model Hed Hmodel Hmode markers.
  pose proof (listener_json _ _ _ _ Hed Hmodel Hmode) as Hrun.
  fold markers in Hrun.
  assert (Hstep : forall src, listeners w = [src] ->
            filter is_lint_report (snd (step (EvDecorations src monaco) w))
            = [(clock w, OnLintError (formatMarkers markers))]).
  { intros src Hls. simpl. rewrite Hls. simpl. rewrite N.eqb_refl.
    unfold task. rewrite Hrun. reflexivity. }
  split; [exact Hrun|].
  split; [exact Hstep|].
  intros Hnone src Hls. rewrite (Hstep src Hls), Hnone. reflexivity.
Qed.

Lemma C10_json_model_witness :
  snd (step (EvDecorations 2
               (mkMonaco (fun _ => Some (mkTextModel "json" "inmemory://model/1"))
                  (fun _ _ => [mkMarker 3 5 3 9 "bad token"])))
         (fst (step (EvMount (mkDiffEditor 1 2)) (boot [":"] 7))))
  = [(7, GetModelMarkers "json" "inmemory://model/1");
     (7, OnLintError ["Lint error on line 3 columns 5-9: bad token"])]
  /\ filter is_lint_report
       (snd (step (EvDecorations 2
                     (mkMonaco
                        (fun _ => Some (mkTextModel "json" "inmemory://model/1"))
                        (fun _ _ => [])))
               (fst (step (EvMount (mkDiffEditor 1 2)) (boot [":"] 7)))))
     = [(7, OnLintError [])].
Proof.
  split; [reflexivity|].
  apply (C10_json_model_reports_all_markers
           (fst (step (EvMount (mkDiffEditor 1 2)) (boot [":"] 7)))
           (mkMonaco (fun _ => Some (mkTextModel "json" "inmemory://model/1"))
              (fun _ _ => []))
           2 (mkTextModel "json" "inmemory://model/1"));
    reflexivity.
Defined.

(** ** Debouncing *)

Lemma run_change_elapse newValue e dt w :
  run [EvChange newValue e; EvElapse dt] w
  = let w1 := if qualifies (triggerCharacters (state (this w))) e
              then rescheduled w else w in
    (fst (elapse dt w1),
     (clock w, OnValueChange newValue) :: snd (elapse dt w1)).
Proof.
  rewrite run_cons, step_change. simpl.
  destruct (elapse dt _). rewrite app_nil_r. reflexivity.
Qed.

(** A qualifying change followed by a pause: the trigger runs if the
    pause is at least the delay, with the handle read at the change. *)
Lemma change_then_wait chars w newValue e k :
  Inv chars w ->
  qualifies chars e = true ->
  run [EvChange newValue e; EvElapse k] w
  = if 300 <=? k
    then (with_clock (clock w + k) (with_timers [] (rescheduled w)),
          [(clock w, OnValueChange newValue);
           firing (clock w + 300) (modifiedEditor (state (this w)))])
    else (with_clock (clock w + k) (rescheduled w),
          [(clock w, OnValueChange newValue)]).
Proof.
  intros HI Hq.
  pose proof (rescheduled_timers _ _ HI) as Hts.
  assert (Hchars : triggerCharacters (state (this w)) = chars) by apply HI.
  rewrite run_change_elapse, Hchars, Hq. cbv zeta.
  rewrite (elapse_single _ _ _ Hts). cbn [due callback].
  change (clock (rescheduled w)) with (clock w).
  destruct (300 <=? k) eqn:Hk.
  - apply N.leb_le in Hk.
    assert (Hready : (clock w + 300 <=? clock w + k) = true)
      by (apply N.leb_le; lia).
    rewrite Hready. cbn [fst snd].
    rewrite N.max_r by lia. reflexivity.
  - apply N.leb_gt in Hk.
    assert (Hwaiting : (clock w + 300 <=? clock w + k) = false)
      by (apply N.leb_gt; lia).
    rewrite Hwaiting. reflexivity.
Qed.

Lemma fired_app tr1 tr2 : fired (tr1 ++ tr2) = fired tr1 ++ fired tr2.
Proof. apply filter_app. Qed.

(** During a burst of rapid qualifying keystrokes no trigger runs. *)
Lemma burst_quiet chars keys :
  forall w,
    Inv chars w ->
    Forall (rapid chars) keys ->
    fired (snd (run (burst keys) w)) = []
    /\ Inv chars (fst (run (burst keys) w))
    /\ clock (fst (run (burst keys) w)) = clock w + span keys
    /\ modifiedEditor (state (this (fst (run (burst keys) w))))
       = modifiedEditor (state (this w)).
Proof.
  induction keys as [|[[newValue e] gap] rest IH]; intros w HI Hrapid.
  - simpl. rewrite N.add_0_r. auto.
  - inversion Hrapid as [|key keys' Hkey Hrest]; subst.
    destruct Hkey as [Hq Hgap].
    change (burst ((newValue, e, gap) :: rest))
      with ([EvChange newValue e; EvElapse gap] ++ burst rest).
    rewrite run_app, (change_then_wait _ _ _ _ _ HI Hq).
    assert (Hshort : (300 <=? gap) = false) by (apply N.leb_gt; exact Hgap).
    rewrite Hshort. cbn [fst snd].
    set (w1 := with_clock (clock w + gap) (rescheduled w)).
    assert (HI1 : Inv chars w1).
    { assert (Hw1 : w1 = fst (run [EvChange newValue e; EvElapse gap] w))
        by (rewrite (change_then_wait _ _ _ _ _ HI Hq), Hshort; reflexivity).
      rewrite Hw1. apply Inv_run. exact HI. }
    destruct (IH w1 HI1 Hrest) as (Hfired & HI2 & Hclock & Hed).
    rewrite fired_app, Hfired, Hclock, Hed.
    split; [reflexivity|].
    split; [exact HI2|].
    split; [|reflexivity].
    change (clock w1) with (clock w + gap).
    change (span ((newValue, e, gap) :: rest)) with (gap + span rest).
    lia.
Qed.

(** C3, as the code has it: a qualifying change event is never skipped.
    [onChange] returns normally and leaves one timer that holds the
    editor handle read from the state at that moment.  When the timer
    runs, one delay later, it asks that handle for suggestions if there
    was one, and raises an uncaught TypeError if there was none, also
    when the editor was mounted in between. *)
Theorem C3_trigger_uses_handle_read_at_change :
  forall (chars : list string) (w : World) (newValue : string)
         (e : ChangeEvent) (k : N),
    reachable chars w ->
    qualifies chars e = true ->
    300 <= k ->
    let handle := modifiedEditor (state (this w)) in
    (exists w',
        onChange newValue e w
        = (Normal tt, w', [(clock w, OnValueChange newValue)])
        /\ timers w'
           = [mkTimer (next_timer_id w) (clock w + 300) (TriggerSuggest handle)])
    /\ snd (run [EvChange newValue e; EvElapse k] w)
       = [(clock w, OnValueChange newValue); firing (clock w + 300) handle]
    /\ (forall editor,
          snd (run [EvChange newValue e; EvMount editor; EvElapse k] w)
          = [(clock w, OnValueChange newValue); firing (clock w + 300) handle]).
Proof.
  intros chars w newValue e k Hreach Hq Hk handle.
  pose proof (reachable_Inv _ _ Hreach) as HI.
  pose proof (rescheduled_timers _ _ HI) as Hts.
  assert (Hchars : triggerCharacters (state (this w)) = chars) by apply HI.
  apply N.leb_le in Hk.
  split; [|split].
  - exists (rescheduled w). rewrite onChange_eq, Hchars, Hq. auto.
  - rewrite (change_then_wait _ _ _ _ _ HI Hq), Hk. reflexivity.
  - intro editor.
    rewrite !run_cons, step_change, Hchars, Hq. cbn [fst snd].
    set (w1 := fst (step (EvMount editor) (rescheduled w))).
    assert (Hts1 : timers w1 = timers (rescheduled w)) by reflexivity.
    rewrite Hts in Hts1.
    change (snd (step (EvMount editor) (rescheduled w))) with (@nil (N * Effect)).
    change (step (EvElapse k) w1) with (elapse k w1).
    rewrite (elapse_single _ _ _ Hts1). cbn [due callback].
    change (clock w1) with (clock w).
    apply N.leb_le in Hk.
    assert (Hready : (clock w + 300 <=? clock w + k) = true)
      by (apply N.leb_le; lia).
    rewrite Hready. cbn [fst snd run app].
    rewrite N.max_r by lia. reflexivity.
Qed.

Lemma C3_trigger_uses_handle_witness :
  snd (run [EvChange "a:" (keystroke ":"); EvElapse 450]
         (fst (step (EvMount (mkDiffEditor 1 2)) (boot [":"] 10))))
  = [(10, OnValueChange "a:"); suggest 310 2].
Proof.
  apply (C3_trigger_uses_handle_read_at_change [":"]
           (fst (step (EvMount (mkDiffEditor 1 2)) (boot [":"] 10)))
           "a:" (keystroke ":") 450).
  - apply reach_step. apply reach_boot.
  - reflexivity.
  - vm_compute. discriminate.
Defined.

(** C3 as the specification states it fails in the state before the
    editor is mounted: the trigger character is given a timer all the
    same, and when that timer runs it raises an uncaught TypeError. *)
Lemma C3_unmounted_trigger_counterexample :
  let w := boot [":"] 0 in
  let e := keystroke ":" in
  modifiedEditor (state (this w)) = None
  /\ qualifies [":"] e = true
  /\ timers (fst (step (EvChange "a:" e) w))
     = [mkTimer 1 300 (TriggerSuggest None)]
  /\ snd (run [EvChange "a:" e; EvElapse 300] w)
     = [(0, OnValueChange "a:");
        (300, Uncaught
                (TypeError "Cannot read properties of null (reading 'trigger')"))]
  /\ ~ (timers (fst (step (EvChange "a:" e) w)) = timers w
        \/ filter is_uncaught (snd (run [EvChange "a:" e; EvElapse 300] w)) = []).
Proof.
  repeat split; try reflexivity.
  intros [Hskipped | Hquiet]; vm_compute in Hskipped || vm_compute in Hquiet;
    discriminate.
Qed.

(** C2: a burst of rapid qualifying keystrokes, each less than one delay
    after the one before, followed by a pause of at least the delay, asks
    for suggestions exactly once, one delay after the last keystroke, and
    leaves no trigger pending.  With the double quote and the colon as
    trigger characters, typing the one and within 100 units the other
    gives the two value changes and a single request, 300 units after the
    colon. *)
Theorem C2_rapid_keystrokes_fire_once :
  forall (chars : list string) (w : World) (ed : EditorId),
    reachable chars w ->
    modifiedEditor (state (this w)) = Some ed ->
    (forall keys newValue e k,
        Forall (rapid chars) keys ->
        qualifies chars e = true ->
        300 <= k ->
        fired (snd (run (burst keys ++ [EvChange newValue e; EvElapse k]) w))
        = [suggest (clock w + span keys + 300) ed]
        /\ timers (fst (run (burst keys ++ [EvChange newValue e; EvElapse k]) w))
           = [])
    /\ (forall newValue1 newValue2 e1 e2 d k,
          includes chars dquote = true ->
          includes chars ":" = true ->
          first_text e1 = Some dquote ->
          first_text e2 = Some ":" ->
          d <= 100 ->
          300 <= k ->
          snd (run [EvChange newValue1 e1; EvElapse d;
                    EvChange newValue2 e2; EvElapse k] w)
          = [(clock w, OnValueChange newValue1);
             (clock w + d, OnValueChange newValue2);
             suggest (clock w + d + 300) ed]).
Proof.
  intros chars w ed Hreach Hed.
  pose proof (reachable_Inv _ _ Hreach) as HI.
  split.
  - intros keys newValue e k Hrapid Hq Hk.
    destruct (burst_quiet chars keys w HI Hrapid)
      as (Hfired & HI1 & Hclock & Hed1).
    rewrite run_app, (change_then_wait _ _ _ _ _ HI1 Hq).
    apply N.leb_le in Hk. rewrite Hk. cbn [fst snd].
    rewrite fired_app, Hfired, Hclock, Hed1, Hed.
    split; reflexivity.
  - intros newValue1 newValue2 e1 e2 d k Hquote Hcolon H1 H2 Hd Hk.
    assert (Hq1 : qualifies chars e1 = true)
      by (rewrite (qualifies_first_text _ _ _ H1); exact Hquote).
    assert (Hq2 : qualifies chars e2 = true)
      by (rewrite (qualifies_first_text _ _ _ H2); exact Hcolon).
    change [EvChange newValue1 e1; EvElapse d;
            EvChange newValue2 e2; EvElapse k]
      with ([EvChange newValue1 e1; EvElapse d]
              ++ [EvChange newValue2 e2; EvElapse k]).
    rewrite run_app.
    assert (HI1 : Inv chars (fst (run [EvChange newValue1 e1; EvElapse d] w)))
      by (apply Inv_run; exact HI).
    rewrite (change_then_wait _ _ _ _ _ HI1 Hq2).
    rewrite (change_then_wait _ _ _ _ _ HI Hq1).
    assert (Hshort : (300 <=? d) = false) by (apply N.leb_gt; lia).
    apply N.leb_le in Hk. rewrite Hshort, Hk. cbn [fst snd].
    change (clock (with_clock (clock w + d) (rescheduled w)))
      with (clock w + d).
    change (modifiedEditor
              (state (this (with_clock (clock w + d) (rescheduled w)))))
      with (modifiedEditor (state (this w))).
    rewrite Hed. reflexivity.
Qed.

Lemma C2_rapid_keystrokes_witness :
  fired
    (snd (run (burst [("k", keystroke dquote, 40); ("k:", keystroke ":", 55)]
                 ++ [EvChange "k::" (keystroke ":"); EvElapse 300])
            (fst (step (EvMount (mkDiffEditor 1 2)) (boot [dquote; ":"] 0)))))
  = [suggest 395 2]
  /\ snd (run [EvChange "q" (keystroke dquote); EvElapse 100;
               EvChange "q:" (keystroke ":"); EvElapse 1000]
            (fst (step (EvMount (mkDiffEditor 1 2)) (boot [dquote; ":"] 0))))
     = [(0, OnValueChange "q"); (100, OnValueChange "q:"); suggest 400 2].
Proof.
  destruct (C2_rapid_keystrokes_fire_once [dquote; ":"]
              (fst (step (EvMount (mkDiffEditor 1 2)) (boot [dquote; ":"] 0)))
              2 (reach_step _ _ _ (reach_boot _ 0)) eq_refl)
    as [Hburst Hscenario].
  split.
  - apply (Hburst [("k", keystroke dquote, 40); ("k:", keystroke ":", 55)]
             "k::" (keystroke ":") 300).
    + repeat constructor.
    + reflexivity.
    + vm_compute. discriminate.
  - apply (Hscenario "q" "q:" (keystroke dquote) (keystroke ":") 100 1000);
      try reflexivity; vm_compute; discriminate.
Defined.

(** * Further properties of the handlers *)

(** ** What a step leaves in the trace and in the world *)

Lemma task_callback cb w :
  task (runCallback cb) w
  = (w, [match cb with TriggerSuggest captured => firing (clock w) captured end]).
Proof. destruct cb as [[ed|]]; reflexivity. Qed.

Lemma fire_cases t w :
  fire t w = (w, [])
  \/ fire t w
     = (with_clock (N.max (clock w) (due t))
          (with_timers (cancel (timer_id t) (timers w)) w),
        [match callback t with
         | TriggerSuggest captured => firing (N.max (clock w) (due t)) captured
         end]).
Proof.
  unfold fire. destruct (active (timer_id t) (timers w)); [right|left].
  - rewrite task_callback. reflexivity.
  - reflexivity.
Qed.

Lemma value_changes_app tr1 tr2 :
  value_changes (tr1 ++ tr2) = value_changes tr1 ++ value_changes tr2.
Proof. apply flat_map_app. Qed.

Lemma value_changes_firing t captured : value_changes [firing t captured] = [].
Proof. destruct captured; reflexivity. Qed.

Lemma fire_all_frame ts :
  forall w,
    this (fst (fire_all ts w)) = this w
    /\ listeners (fst (fire_all ts w)) = listeners w
    /\ next_timer_id (fst (fire_all ts w)) = next_timer_id w
    /\ value_changes (snd (fire_all ts w)) = [].
Proof.
  induction ts as [|t rest IH]; intro w; [simpl; auto|].
  cbn [fire_all].
  destruct (fire_cases t w) as [H | H]; rewrite H;
    match goal with
    | |- context [fire_all rest ?w1] =>
        destruct (IH w1) as (Hthis & Hls & Hnext & Hvals);
        destruct (fire_all rest w1) as [w2 tr2]
    end; cbn [fst snd] in *.
  - auto.
  - rewrite Hthis, Hls, Hnext, value_changes_app, Hvals.
    destruct (callback t) as [captured].
    rewrite value_changes_firing. auto.
Qed.

Lemma elapse_unfold dt w :
  elapse dt w
  = (with_clock (clock w + dt)
       (fst (fire_all
               (sort_by_due (filter (fun t => due t <=? clock w + dt) (timers w)))
               w)),
     snd (fire_all
            (sort_by_due (filter (fun t => due t <=? clock w + dt) (timers w)))
            w)).
Proof. unfold elapse. destruct (fire_all _ w). reflexivity. Qed.

Lemma elapse_frame dt w :
  this (fst (elapse dt w)) = this w
  /\ listeners (fst (elapse dt w)) = listeners w
  /\ value_changes (snd (elapse dt w)) = [].
Proof.
  rewrite elapse_unfold. simpl.
  destruct (fire_all_frame
              (sort_by_due (filter (fun t => due t <=? clock w + dt) (timers w)))
              w) as (Hthis & Hls & _ & Hvals).
  auto.
Qed.

(** The three ways the listener can end. *)
Lemma listener_task_cases monaco w :
  (modifiedEditor (state (this w)) = None
   /\ exists err,
        task (onDidChangeModelDecorations monaco) w
        = (w, [(clock w, Uncaught err)]))
  \/ (modifiedEditor (state (this w)) <> None
      /\ task (onDidChangeModelDecorations monaco) w = (w, []))
  \/ (exists ed model,
        modifiedEditor (state (this w)) = Some ed
        /\ getModel monaco ed = Some model
        /\ modeId model = "json"
        /\ task (onDidChangeModelDecorations monaco) w
           = (w, lint_report (clock w) monaco model)).
Proof.
  unfold task, onDidChangeModelDecorations, bind, gets. simpl.
  destruct (modifiedEditor (state (this w))) as [ed|] eqn:Hed; simpl.
  - destruct (getModel monaco ed) as [model|] eqn:Hmodel; simpl.
    + destruct (modeId model =? "json")%string eqn:Hmode; simpl.
      * right. right. exists ed, model. apply String.eqb_eq in Hmode.
        rewrite Hmode. auto.
      * right. left. split; [discriminate | reflexivity].
    + right. left. split; [discriminate | reflexivity].
  - left. split; [reflexivity|]. eexists. reflexivity.
Qed.

Lemma dispatch_values ls src monaco w :
  value_changes (snd (dispatch ls src monaco w)) = [].
Proof.
  induction ls as [|ed rest IH]; simpl; [reflexivity|].
  destruct (ed =? src); [|exact IH].
  destruct (listener_task_cases monaco w)
    as [(_ & err & H) | [(_ & H) | (ed' & model & _ & _ & _ & H)]];
    rewrite H; destruct (dispatch rest src monaco w) as [w2 tr2];
    simpl in *; exact IH.
Qed.

Lemma step_frame ev w :
  listeners (fst (step ev w))
  = listeners w ++ mounted [ev]
  /\ modifiedEditor (state (this (fst (step ev w))))
     = handle_after (modifiedEditor (state (this w))) [ev]
  /\ value_changes (snd (step ev w)) = values_of [ev].
Proof.
  destruct ev as [newValue e | editor | src monaco | dt].
  - rewrite step_change. simpl.
    destruct (qualifies _ e); simpl; rewrite app_nil_r; auto.
  - simpl. auto.
  - simpl step. rewrite dispatch_world, dispatch_values. simpl.
    rewrite app_nil_r. auto.
  - simpl step. destruct (elapse_frame dt w) as (Hthis & Hls & Hvals).
    rewrite Hthis, Hls, Hvals. simpl. rewrite app_nil_r. auto.
Qed.

Lemma mounted_cons ev rest : mounted (ev :: rest) = mounted [ev] ++ mounted rest.
Proof. destruct ev; reflexivity. Qed.

Lemma values_of_cons ev rest :
  values_of (ev :: rest) = values_of [ev] ++ values_of rest.
Proof. destruct ev; reflexivity. Qed.

Lemma handle_after_cons init ev rest :
  handle_after init (ev :: rest) = handle_after (handle_after init [ev]) rest.
Proof. destruct ev; reflexivity. Qed.

(** X1: over any run, from any world, the value-change callback is
    called with exactly the texts of the change events, in their order:
    none is dropped, doubled, reordered or held back by the debounce, and
    no other event calls it. *)
Theorem X1_value_changes_follow_change_events :
  forall (evs : list Event) (w : World),
    value_changes (snd (run evs w)) = values_of evs.
Proof.
  induction evs as [|ev rest IH]; intro w; [reflexivity|].
  rewrite run_cons, values_of_cons. cbn [snd].
  rewrite value_changes_app, IH.
  destruct (step_frame ev w) as (_ & _ & Hvals). rewrite Hvals. reflexivity.
Qed.

(** X2: the editor handle of the state is the modified editor of the
    latest mount event, if there was one, and is never reset; listener
    registrations pile up in the order of the mounts and are never
    removed. *)
Theorem X2_handle_is_latest_mount :
  forall (evs : list Event) (w : World),
    modifiedEditor (state (this (fst (run evs w))))
    = handle_after (modifiedEditor (state (this w))) evs
    /\ listeners (fst (run evs w)) = listeners w ++ mounted evs
    /\ (modifiedEditor (state (this w)) <> None ->
        modifiedEditor (state (this (fst (run evs w)))) <> None).
Proof.
  induction evs as [|ev rest IH]; intro w.
  - simpl. rewrite app_nil_r. auto.
  - rewrite run_cons, mounted_cons, handle_after_cons. cbn [fst].
    destruct (step_frame ev w) as (Hls & Hed & _).
    destruct (IH (fst (step ev w))) as (IH1 & IH2 & IH3).
    rewrite IH1, IH2, Hls, Hed, app_assoc.
    split; [reflexivity|]. split; [reflexivity|].
    intro Hsome. rewrite <- Hed, <- IH1. apply IH3. rewrite Hed.
    destruct ev; simpl; try exact Hsome. discriminate.
Qed.

(** ** Decoration changes in general *)

Lemma dispatch_json ls src monaco w ed model :
  modifiedEditor (state (this w)) = Some ed ->
  getModel monaco ed = Some model ->
  modeId model = "json" ->
  dispatch ls src monaco w
  = (w, List.concat (repeat (lint_report (clock w) monaco model)
                  (registrations src ls))).
Proof.
  intros Hed Hmodel Hmode.
  induction ls as [|l rest IH]; [reflexivity|].
  cbn [dispatch]. unfold registrations. cbn [filter].
  destruct (l =? src); [|exact IH].
  unfold task. rewrite (listener_json _ _ _ _ Hed Hmodel Hmode), IH.
  reflexivity.
Qed.

(** X3: a decoration change of editor [src] runs the listener once for
    every registration on [src], none for an editor without registration
    and twice after two mounts of the same editor; each run looks at the
    model of the handle in the state, whichever editor sent the event, and
    reports its markers. *)
Theorem X3_one_report_per_registration :
  forall (w : World) (monaco : Monaco) (ed : EditorId) (model : TextModel)
         (src : EditorId),
    modifiedEditor (state (this w)) = Some ed ->
    getModel monaco ed = Some model ->
    modeId model = "json" ->
    step (EvDecorations src monaco) w
    = (w, List.concat (repeat (lint_report (clock w) monaco model)
                    (registrations src (listeners w))))
    /\ List.length
         (filter is_lint_report (snd (step (EvDecorations src monaco) w)))
       = registrations src (listeners w).
Proof.
  intros w monaco ed model src Hed Hmodel Hmode.
  cbn [step]. rewrite (dispatch_json _ _ _ _ _ _ Hed Hmodel Hmode).
  split; [reflexivity|]. cbn [snd].
  induction (registrations src (listeners w)) as [|n IH]; [reflexivity|].
  cbn [repeat List.concat]. rewrite filter_app, length_app, IH. reflexivity.
Qed.

Lemma X3_one_report_per_registration_witness :
  List.length
    (filter is_lint_report
       (snd (step (EvDecorations 2
                     (mkMonaco
                        (fun ed => if ed =? 4
                                   then Some (mkTextModel "json" "inmemory://model/4")
                                   else Some (mkTextModel "yaml" "inmemory://model/2"))
                        (fun _ _ => [mkMarker 1 1 1 2 "x"])))
               (fst (run [EvMount (mkDiffEditor 1 2); EvMount (mkDiffEditor 1 2);
                          EvMount (mkDiffEditor 3 4)]
                       (boot [":"] 0))))))
  = 2%nat.
Proof.
  apply (X3_one_report_per_registration
           (fst (run [EvMount (mkDiffEditor 1 2); EvMount (mkDiffEditor 1 2);
                      EvMount (mkDiffEditor 3 4)]
                   (boot [":"] 0)))
           (mkMonaco
              (fun ed => if ed =? 4
                         then Some (mkTextModel "json" "inmemory://model/4")
                         else Some (mkTextModel "yaml" "inmemory://model/2"))
              (fun _ _ => [mkMarker 1 1 1 2 "x"]))
           4 (mkTextModel "json" "inmemory://model/4") 2);
    reflexivity.
Defined.

Lemma filter_none {A} (f : A -> bool) (l : list A) :
  Forall (fun x => f x = false) l -> filter f l = [].
Proof.
  induction 1 as [|x l Hx _ IH]; simpl; [|rewrite Hx]; auto.
Qed.

Lemma dispatch_calm ls src monaco w :
  (modifiedEditor (state (this w)) <> None \/ ls = []) ->
  Forall (fun x => is_timer_run x = false) (snd (dispatch ls src monaco w)).
Proof.
  intros [Hed | Hnil]; [|rewrite Hnil; constructor].
  induction ls as [|l rest IH]; cbn [dispatch]; [constructor|].
  destruct (l =? src); [|exact IH].
  destruct (listener_task_cases monaco w)
    as [(Hnone & _) | [(_ & H) | (ed' & model & _ & _ & _ & H)]].
  - contradiction.
  - rewrite H. destruct (dispatch rest src monaco w). exact IH.
  - rewrite H. destruct (dispatch rest src monaco w). cbn [snd] in *.
    apply Forall_app. split; [|exact IH].
    repeat constructor.
Qed.

Lemma Inv_listeners chars w :
  Inv chars w -> modifiedEditor (state (this w)) <> None \/ listeners w = [].
Proof.
  intros (_ & _ & _ & _ & _ & Hls).
  destruct (listeners w) as [|l ls]; [right; reflexivity|].
  left. apply Hls. discriminate.
Qed.

(** X4: in every world a component can reach, a decoration change neither
    alters the world, so that a pending trigger stays as it is, nor
    raises an error, nor asks for suggestions. *)
Theorem X4_decoration_change_is_harmless :
  forall (chars : list string) (w : World) (src : EditorId) (monaco : Monaco),
    reachable chars w ->
    fst (step (EvDecorations src monaco) w) = w
    /\ filter is_uncaught (snd (step (EvDecorations src monaco) w)) = []
    /\ fired (snd (step (EvDecorations src monaco) w)) = []
    /\ value_changes (snd (step (EvDecorations src monaco) w)) = [].
Proof.
  intros chars w src monaco Hreach. cbn [step].
  pose proof (dispatch_calm (listeners w) src monaco w
                (Inv_listeners _ _ (reachable_Inv _ _ Hreach))) as Hcalm.
  split; [apply dispatch_world|].
  split; [|split; [|apply dispatch_values]]; apply filter_none;
    (eapply Forall_impl; [|exact Hcalm]); intros x Hx;
    unfold is_timer_run in Hx; apply orb_false_iff in Hx; apply Hx.
Qed.

Lemma X4_decoration_change_witness :
  filter is_uncaught
    (snd (step (EvDecorations 2 (mkMonaco (fun _ => None) (fun _ _ => [])))
            (fst (run [EvChange "a:" (keystroke ":");
                       EvMount (mkDiffEditor 1 2)]
                    (boot [":"] 0)))))
  = [].
Proof.
  apply (X4_decoration_change_is_harmless [":"]
           (fst (run [EvChange "a:" (keystroke ":"); EvMount (mkDiffEditor 1 2)]
                   (boot [":"] 0)))
           2 (mkMonaco (fun _ => None) (fun _ _ => []))).
  apply (reachable_run [":"]
           [EvChange "a:" (keystroke ":"); EvMount (mkDiffEditor 1 2)]).
  apply reach_boot.
Defined.

(** ** Runs of a component *)

Lemma elapse_Inv_cases chars dt w :
  Inv chars w ->
  (timers w = [] /\ elapse dt w = (with_clock (clock w + dt) w, []))
  \/ exists t captured,
       timers w = [t] /\ callback t = TriggerSuggest captured
       /\ clock w <= due t
       /\ ((due t <= clock w + dt
            /\ elapse dt w
               = (with_clock (clock w + dt) (with_timers [] w),
                  [firing (due t) captured]))
           \/ (clock w + dt < due t
               /\ elapse dt w = (with_clock (clock w + dt) w, []))).
Proof.
  intros ([H | (t & H & _)] & _ & Hdue & _).
  - left. split; [exact H | apply elapse_idle; exact H].
  - right. destruct (callback t) as [captured] eqn:Hcb.
    exists t, captured. rewrite H in Hdue. inversion Hdue as [|? ? Hle _]; subst.
    split; [exact H|]. split; [exact Hcb|]. split; [exact Hle|].
    rewrite (elapse_single _ _ _ H), Hcb.
    destruct (due t <=? clock w + dt) eqn:Hready.
    + left. apply N.leb_le in Hready. rewrite (N.max_r _ _ Hle). auto.
    + right. apply N.leb_gt in Hready. auto.
Qed.

Lemma change_Inv_cases chars newValue e w :
  Inv chars w ->
  snd (step (EvChange newValue e) w) = [(clock w, OnValueChange newValue)]
  /\ ((qualifies chars e = false /\ fst (step (EvChange newValue e) w) = w)
      \/ (qualifies chars e = true
          /\ fst (step (EvChange newValue e) w) = rescheduled w
          /\ timers (rescheduled w)
             = [mkTimer (next_timer_id w) (clock w + 300)
                  (TriggerSuggest (modifiedEditor (state (this w))))])).
Proof.
  intro HI.
  assert (Hchars : triggerCharacters (state (this w)) = chars) by apply HI.
  rewrite step_change, Hchars. split; [reflexivity|].
  destruct (qualifies chars e); [right | left]; auto.
  split; [reflexivity|]. split; [reflexivity|].
  apply (rescheduled_timers _ _ HI).
Qed.

Lemma guarded_cons chars b ev rest :
  guarded chars b (ev :: rest) = true ->
  guarded chars b [ev] = true
  /\ guarded chars (match ev with EvMount _ => true | _ => b end) rest = true.
Proof.
  destruct ev; simpl; intro H; auto.
  apply andb_true_iff in H. destruct H as [H1 H2].
  rewrite H1. auto.
Qed.

Lemma guarded_step chars b ev w :
  Inv chars w ->
  armed_safely w ->
  (b = true -> modifiedEditor (state (this w)) <> None) ->
  guarded chars b [ev] = true ->
  armed_safely (fst (step ev w))
  /\ filter is_uncaught (snd (step ev w)) = [].
Proof.
  intros HI Harmed Hb Hguard.
  destruct ev as [newValue e | editor | src monaco | dt].
  - destruct (change_Inv_cases _ newValue e _ HI)
      as (Htr & [(_ & Hw) | (Hq & Hw & Hts)]); rewrite Htr, Hw.
    + auto.
    + split; [|reflexivity]. unfold armed_safely. rewrite Hts.
      constructor; [|constructor]. cbn [callback]. intro Heq.
      simpl in Hguard. rewrite Hq in Hguard.
      destruct b; [|discriminate Hguard].
      apply Hb; [reflexivity|]. injection Heq. auto.
  - split; [exact Harmed | reflexivity].
  - cbn [step]. rewrite dispatch_world. split; [exact Harmed|].
    apply filter_none.
    eapply Forall_impl;
      [|exact (dispatch_calm _ src monaco _ (Inv_listeners _ _ HI))].
    intros x Hx. unfold is_timer_run in Hx. apply orb_false_iff in Hx. apply Hx.
  - cbn [step].
    destruct (elapse_Inv_cases _ dt _ HI)
      as [(_ & Hel) | (t & captured & Hts & Hcb & _ & [(_ & Hel) | (_ & Hel)])];
      rewrite Hel; cbn [fst snd]; unfold armed_safely; cbn [timers with_clock
        with_timers]; try (split; [first [exact Harmed | constructor] | reflexivity]).
    split; [constructor|].
    unfold armed_safely in Harmed. rewrite Hts in Harmed.
    inversion Harmed as [|? ? Hsafe _]; subst. rewrite Hcb in Hsafe.
    destruct captured as [ed|]; [reflexivity|]. contradiction Hsafe. reflexivity.
Qed.

Lemma guarded_run chars evs :
  forall b w,
    Inv chars w ->
    armed_safely w ->
    (b = true -> modifiedEditor (state (this w)) <> None) ->
    guarded chars b evs = true ->
    filter is_uncaught (snd (run evs w)) = [].
Proof.
  induction evs as [|ev rest IH]; intros b w HI Harmed Hb Hguard;
    [reflexivity|].
  destruct (guarded_cons _ _ _ _ Hguard) as [Hev Hrest].
  destruct (guarded_step _ _ _ _ HI Harmed Hb Hev) as [Harmed1 Hquiet].
  rewrite run_cons. cbn [snd]. rewrite filter_app, Hquiet.
  apply (IH (match ev with EvMount _ => true | _ => b end) _
            (Inv_step _ ev _ HI) Harmed1); [|exact Hrest].
  destruct (step_frame ev w) as (_ & Hed & _). rewrite Hed.
  destruct ev; simpl; try exact Hb. discriminate.
Qed.

(** X5: if no trigger character is typed before the editor is mounted,
    no run of a new component ever raises an uncaught error: every
    trigger that fires finds its handle, and so does every run of the
    decoration listener. *)
Theorem X5_no_error_when_mounted_before_typing :
  forall (chars : list string) (t0 : N) (evs : list Event),
    guarded chars false evs = true ->
    filter is_uncaught (snd (run evs (boot chars t0))) = [].
Proof.
  intros chars t0 evs Hguard.
  apply (guarded_run chars evs false (boot chars t0)).
  - apply Inv_boot.
  - constructor.
  - discriminate.
  - exact Hguard.
Qed.

Lemma X5_no_error_witness :
  filter is_uncaught
    (snd (run [EvElapse 10; EvChange "a" (keystroke "a");
               EvDecorations 2 (mkMonaco (fun _ => None) (fun _ _ => []));
               EvMount (mkDiffEditor 1 2); EvChange "a:" (keystroke ":");
               EvDecorations 2 (mkMonaco (fun _ => None) (fun _ _ => []));
               EvElapse 300; EvChange "a::" (keystroke ":"); EvElapse 1000]
            (boot [":"] 0)))
  = [].
Proof.
  apply (X5_no_error_when_mounted_before_typing [":"] 0
           [EvElapse 10; EvChange "a" (keystroke "a");
            EvDecorations 2 (mkMonaco (fun _ => None) (fun _ _ => []));
            EvMount (mkDiffEditor 1 2); EvChange "a:" (keystroke ":");
            EvDecorations 2 (mkMonaco (fun _ => None) (fun _ _ => []));
            EvElapse 300; EvChange "a::" (keystroke ":"); EvElapse 1000]).
  reflexivity.
Defined.

Lemma requests_within_nil known : requests_within known [].
Proof. intros t ed source handlerId []. Qed.

Lemma requests_within_app known tr1 tr2 :
  requests_within known tr1 -> requests_within known tr2 ->
  requests_within known (tr1 ++ tr2).
Proof.
  intros H1 H2 t ed source handlerId Hin.
  apply in_app_or in Hin. destruct Hin; [eapply H1 | eapply H2]; eassumption.
Qed.

Lemma requests_within_more known extra tr :
  requests_within known tr -> requests_within (known ++ extra) tr.
Proof.
  intros H t ed source handlerId Hin.
  destruct (H _ _ _ _ Hin) as (Hs & Hh & Hk).
  repeat split; auto. apply in_or_app. left. exact Hk.
Qed.

Lemma requests_within_calm known tr :
  Forall (fun x => is_trigger x = false) tr -> requests_within known tr.
Proof.
  intros Hcalm t ed source handlerId Hin.
  rewrite Forall_forall in Hcalm. specialize (Hcalm _ Hin). discriminate Hcalm.
Qed.

Lemma dispatch_no_requests ls src monaco w :
  Forall (fun x => is_trigger x = false) (snd (dispatch ls src monaco w)).
Proof.
  induction ls as [|l rest IH]; cbn [dispatch]; [constructor|].
  destruct (l =? src); [|exact IH].
  destruct (listener_task_cases monaco w)
    as [(_ & err & H) | [(_ & H) | (ed' & model & _ & _ & _ & H)]];
    rewrite H; destruct (dispatch rest src monaco w); cbn [snd] in *;
    try exact IH; apply Forall_app; (split; [|exact IH]); repeat constructor.
Qed.

Lemma known_step chars known ev w :
  Inv chars w ->
  known_handles known w ->
  known_handles (known ++ mounted [ev]) (fst (step ev w))
  /\ requests_within known (snd (step ev w)).
Proof.
  intros HI [Hed Hts].
  assert (Hmore : forall ed, In ed known -> In ed (known ++ mounted [ev]))
    by (intros; apply in_or_app; left; assumption).
  destruct ev as [newValue e | editor | src monaco | dt].
  - destruct (change_Inv_cases _ newValue e _ HI)
      as (Htr & [(_ & Hw) | (_ & Hw & Hnew)]); rewrite Htr, Hw.
    + split; [split; eauto|]. apply requests_within_calm. repeat constructor.
    + split; [|apply requests_within_calm; repeat constructor].
      split; [intros ed H; apply Hmore, Hed, H|].
      intros t ed Hin Hcb. rewrite Hnew in Hin. destruct Hin as [<- | []].
      injection Hcb as Hcap. apply Hmore, Hed, Hcap.
  - split; [|apply requests_within_nil].
    split.
    + intros ed H. injection H as <-. apply in_or_app. right. left. reflexivity.
    + intros t ed Hin Hcb. apply Hmore. eapply Hts; eassumption.
  - cbn [step]. rewrite dispatch_world.
    split; [split; eauto|].
    apply requests_within_calm, dispatch_no_requests.
  - cbn [step].
    destruct (elapse_Inv_cases _ dt _ HI)
      as [(_ & Hel) | (t & captured & Hone & Hcb & _ & [(_ & Hel) | (_ & Hel)])];
      rewrite Hel; cbn [fst snd].
    + split; [split; eauto | apply requests_within_nil].
    + split; [split; [intros ed H; apply Hmore, Hed, H | intros u ed []]|].
      intros stamp ed source handlerId [Heq | []].
      destruct captured as [ed'|]; [|discriminate Heq].
      injection Heq as _ <- <- <-.
      repeat split. apply (Hts t); [rewrite Hone; left; reflexivity | exact Hcb].
    + split; [split; eauto | apply requests_within_nil].
Qed.

Lemma known_run chars evs :
  forall known w,
    Inv chars w ->
    known_handles known w ->
    requests_within (known ++ mounted evs) (snd (run evs w)).
Proof.
  induction evs as [|ev rest IH]; intros known w HI Hknown.
  - apply requests_within_nil.
  - destruct (known_step _ _ ev _ HI Hknown) as [Hknown1 Hreq].
    rewrite run_cons, mounted_cons, app_assoc. cbn [snd].
    apply requests_within_app.
    + apply requests_within_more, requests_within_more, Hreq.
    + apply IH; [apply Inv_step, HI | exact Hknown1].
Qed.

(** X6: every suggestion request of a run of a new component is the
    manual trigger of the suggest action, and it goes to a modified
    editor that a mount event of the run has brought; no request is made
    on any other editor. *)
Theorem X6_requests_only_on_mounted_editors :
  forall (chars : list string) (t0 : N) (evs : list Event)
         (t : N) (ed : EditorId) (source handlerId : string),
    In (t, EditorTrigger ed source handlerId) (snd (run evs (boot chars t0))) ->
    source = "manual_trigger"
    /\ handlerId = "editor.action.triggerSuggest"
    /\ In ed (mounted evs).
Proof.
  intros chars t0 evs.
  apply (known_run chars evs [] (boot chars t0) (Inv_boot chars t0)).
  split.
  - intros ed H. discriminate H.
  - intros t ed [].
Qed.

Lemma X6_requests_witness :
  In 4 (mounted [EvMount (mkDiffEditor 1 2); EvMount (mkDiffEditor 3 4);
               EvChange "a:" (keystroke ":"); EvElapse 300]).
Proof.
  apply (X6_requests_only_on_mounted_editors [":"] 0
           [EvMount (mkDiffEditor 1 2); EvMount (mkDiffEditor 3 4);
            EvChange "a:" (keystroke ":"); EvElapse 300]
           300 4 "manual_trigger" "editor.action.triggerSuggest").
  vm_compute. right. left. reflexivity.
Defined.

Lemma count_step chars ev w :
  Inv chars w ->
  (List.length (filter is_timer_run (snd (step ev w)))
   + List.length (timers (fst (step ev w)))
   <= List.length (timers w) + count_qualifying chars [ev])%nat.
Proof.
  intro HI. destruct ev as [newValue e | editor | src monaco | dt].
  - destruct (change_Inv_cases _ newValue e _ HI)
      as (Htr & [(Hq & Hw) | (Hq & Hw & Hnew)]); rewrite Htr, Hw.
    + simpl. lia.
    + rewrite Hnew. simpl. rewrite Hq. lia.
  - simpl. lia.
  - cbn [step]. rewrite dispatch_world.
    rewrite (filter_none _ _ (dispatch_calm _ src monaco _ (Inv_listeners _ _ HI))).
    simpl. lia.
  - cbn [step].
    destruct (elapse_Inv_cases _ dt _ HI)
      as [(Hnil & Hel) | (t & captured & Hone & _ & _ & [(_ & Hel) | (_ & Hel)])];
      rewrite Hel; cbn [fst snd timers with_clock with_timers].
    + simpl. lia.
    + rewrite Hone. destruct captured; simpl; lia.
    + simpl. lia.
Qed.

Lemma count_qualifying_cons chars ev rest :
  count_qualifying chars (ev :: rest)
  = (count_qualifying chars [ev] + count_qualifying chars rest)%nat.
Proof. destruct ev; simpl; lia. Qed.

Lemma count_run chars evs :
  forall w,
    Inv chars w ->
    (List.length (filter is_timer_run (snd (run evs w)))
     + List.length (timers (fst (run evs w)))
     <= List.length (timers w) + count_qualifying chars evs)%nat.
Proof.
  induction evs as [|ev rest IH]; intros w HI.
  - simpl. lia.
  - rewrite run_cons, count_qualifying_cons. cbn [fst snd].
    rewrite filter_app, length_app.
    pose proof (count_step _ ev _ HI) as Hstep.
    pose proof (IH _ (Inv_step _ ev _ HI)) as Hrest.
    lia.
Qed.

(** X7: a component never runs more triggers than it was given
    qualifying change events: in any run of a new component the number
    of suggestion requests and uncaught errors together, plus the triggers
    still pending at the end, is at most the number of change events whose
    first insertion is a trigger character. *)
Theorem X7_no_more_triggers_than_qualifying_changes :
  forall (chars : list string) (t0 : N) (evs : list Event),
    (List.length (filter is_timer_run (snd (run evs (boot chars t0))))
     + List.length (timers (fst (run evs (boot chars t0))))
     <= count_qualifying chars evs)%nat.
Proof.
  intros chars t0 evs.
  apply (count_run chars evs (boot chars t0) (Inv_boot chars t0)).
Qed.

Lemma prompt_step chars ev w :
  Inv chars w -> prompt w -> prompt (fst (step ev w)).
Proof.
  intros HI Hp. destruct ev as [newValue e | editor | src monaco | dt].
  - destruct (change_Inv_cases _ newValue e _ HI)
      as (_ & [(_ & Hw) | (_ & Hw & Hnew)]); rewrite Hw; [exact Hp|].
    unfold prompt. rewrite Hnew. constructor; [|constructor].
    change (clock (rescheduled w)) with (clock w). cbn [due]. lia.
  - exact Hp.
  - cbn [step]. rewrite dispatch_world. exact Hp.
  - cbn [step]. unfold prompt in *.
    destruct (elapse_Inv_cases _ dt _ HI)
      as [(Hnil & Hel) | (t & captured & Hone & _ & _ & [(_ & Hel) | (_ & Hel)])];
      rewrite Hel; cbn [fst timers clock with_clock with_timers].
    + rewrite Hnil. constructor.
    + constructor.
    + rewrite Hone in *. inversion Hp as [|? ? Hle _]; subst.
      constructor; [lia | constructor].
Qed.

Lemma reachable_prompt chars w : reachable chars w -> prompt w.
Proof.
  induction 1 as [t0 | ev w Hreach IH].
  - constructor.
  - apply (prompt_step chars); [apply reachable_Inv, Hreach | exact IH].
Qed.

(** X8: in every world a component can reach, a pending trigger is due
    no earlier than now and no later than one delay from now; so after
    300 units without a qualifying change nothing is pending any more. *)
Theorem X8_pending_trigger_runs_within_the_delay :
  forall (chars : list string) (w : World),
    reachable chars w ->
    Forall (fun t => clock w <= due t /\ due t <= clock w + 300) (timers w)
    /\ forall dt, 300 <= dt -> timers (fst (elapse dt w)) = [].
Proof.
  intros chars w Hreach.
  pose proof (reachable_Inv _ _ Hreach) as HI.
  pose proof (reachable_prompt _ _ Hreach) as Hp.
  split.
  - destruct HI as (_ & _ & Hdue & _). unfold prompt in Hp.
    rewrite Forall_forall in *. intros t Hin. split; auto.
  - intros dt Hdt.
    destruct (elapse_Inv_cases _ dt _ HI)
      as [(Hnil & Hel) | (t & captured & Hone & _ & _ & [(_ & Hel) | (Hlate & _)])].
    + rewrite Hel. exact Hnil.
    + rewrite Hel. reflexivity.
    + unfold prompt in Hp. rewrite Hone in Hp.
      inversion Hp as [|? ? Hle _]; subst. lia.
Qed.

Lemma X8_pending_trigger_witness :
  timers (fst (elapse 300
                 (fst (run [EvChange "a:" (keystroke ":"); EvElapse 299;
                            EvChange "a::" (keystroke ":"); EvElapse 120]
                         (boot [":"] 0)))))
  = [].
Proof.
  destruct (X8_pending_trigger_runs_within_the_delay [":"]
              (fst (run [EvChange "a:" (keystroke ":"); EvElapse 299;
                         EvChange "a::" (keystroke ":"); EvElapse 120]
                      (boot [":"] 0)))
              (reachable_run [":"] _ _ (reach_boot [":"] 0)))
    as [_ Hquiet].
  apply (Hquiet 300). vm_compute. discriminate.
Defined.

Lemma X2_handle_is_latest_mount_witness :
  modifiedEditor
    (state (this (fst (run [EvChange "a:" (keystroke ":"); EvElapse 300;
                            EvDecorations 2 (mkMonaco (fun _ => None)
                                               (fun _ _ => []))]
                         (fst (step (EvMount (mkDiffEditor 1 2))
                                 (boot [":"] 0)))))))
  <> None.
Proof.
  apply (X2_handle_is_latest_mount
           [EvChange "a:" (keystroke ":"); EvElapse 300;
            EvDecorations 2 (mkMonaco (fun _ => None) (fun _ _ => []))]
           (fst (step (EvMount (mkDiffEditor 1 2)) (boot [":"] 0)))).
  discriminate.
Defined.

(** ** Which insertions qualify *)

Lemma includes_In xs x : includes xs x = true <-> In x xs.
Proof.
  unfold includes. rewrite existsb_exists. split.
  - intros (y & Hin & Heq). apply String.eqb_eq in Heq. subst. exact Hin.
  - intro Hin. exists x. split; [exact Hin | apply String.eqb_refl].
Qed.

Lemma qualifies_In chars e :
  qualifies chars e = true <-> exists s, first_text e = Some s /\ In s chars.
Proof.
  unfold qualifies, first_text. destruct (changes e) as [|c rest].
  - split; [discriminate | intros (s & H & _); discriminate H].
  - rewrite includes_In. split.
    + intro H. exists (text c). auto.
    + intros (s & H & Hin). injection H as <-. exact Hin.
Qed.

(** X9: [onChange] touches the scheduling exactly when the text of the
    first insertion is, as a whole, one of the trigger strings.  With
    one-character trigger strings an insertion of any other length, such
    as a pasted text that contains a trigger character or the empty text
    of a deletion, schedules nothing and cancels nothing. *)
Theorem X9_trigger_is_whole_text_match :
  forall (w : World) (newValue : string) (e : ChangeEvent),
    (scheduling (fst (step (EvChange newValue e) w)) <> scheduling w
     <-> exists s,
           first_text e = Some s /\ In s (triggerCharacters (state (this w))))
    /\ (forall s,
          Forall (fun c => String.length c = 1%nat)
            (triggerCharacters (state (this w))) ->
          first_text e = Some s ->
          String.length s <> 1%nat ->
          step (EvChange newValue e) w
          = (w, [(clock w, OnValueChange newValue)])).
Proof.
  intros w newValue e. rewrite <- qualifies_In, step_change. split.
  - destruct (qualifies _ e); cbn [fst]; split.
    + reflexivity.
    + intros _ Heq. unfold scheduling, rescheduled in Heq. cbn in Heq.
      injection Heq as _ _ Hnext. lia.
    + intro H. contradiction H. reflexivity.
    + discriminate.
  - intros s Hone Hfirst Hlen.
    destruct (qualifies _ e) eqn:Hq; [|reflexivity].
    apply qualifies_In in Hq. destruct Hq as (s' & Hfirst' & Hin).
    rewrite Hfirst in Hfirst'. injection Hfirst' as <-.
    rewrite Forall_forall in Hone. contradiction (Hlen (Hone _ Hin)).
Qed.

Lemma X9_trigger_is_whole_text_witness :
  step (EvChange "{a:1}" (mkChangeEvent [mkChange "a:1" 1 0] 3))
    (rescheduled (boot [":"; "a"] 0))
  = (rescheduled (boot [":"; "a"] 0), [(0, OnValueChange "{a:1}")]).
Proof.
  apply (X9_trigger_is_whole_text_match (rescheduled (boot [":"; "a"] 0))
           "{a:1}" (mkChangeEvent [mkChange "a:1" 1 0] 3))
    with (s := "a:1").
  - repeat constructor.
  - reflexivity.
  - discriminate.
Defined.

(** ** What a formatted marker tells *)

Lemma all_digits_uint d : all_digits (NilEmpty.string_of_uint d) = true.
Proof. induction d; simpl; auto. Qed.

Lemma all_digits_decimal n : all_digits (decimal n) = true.
Proof.
  unfold decimal, NilZero.string_of_uint.
  destruct (N.to_uint n) eqn:Hd; try (rewrite <- Hd; apply all_digits_uint).
  reflexivity.
Qed.

Lemma to_uint_nonnil n : N.to_uint n <> Decimal.Nil.
Proof.
  destruct n as [|p]; [discriminate|].
  apply DecimalPos.Unsigned.to_uint_nonnil.
Qed.

Lemma decimal_inj a b : decimal a = decimal b -> a = b.
Proof.
  unfold decimal. intro H.
  apply DecimalN.Unsigned.to_uint_inj.
  pose proof (NilZero.usu _ (to_uint_nonnil a)) as Ha.
  pose proof (NilZero.usu _ (to_uint_nonnil b)) as Hb.
  rewrite H, Hb in Ha. injection Ha as Ha. symmetry. exact Ha.
Qed.

Lemma append_inj_l (s a b : string) : (s ++ a = s ++ b)%string -> a = b.
Proof.
  induction s as [|c s IH]; simpl; intro H; [exact H|].
  injection H as H. apply IH, H.
Qed.

(** Two numerals followed by the same character that is no digit end at
    the same place. *)
Lemma split_at_nondigit (c : ascii) :
  is_digit c = false ->
  forall a b r r',
    all_digits a = true -> all_digits b = true ->
    (a ++ String c r = b ++ String c r')%string ->
    a = b /\ r = r'.
Proof.
  intros Hc. induction a as [|x a IH]; intros [|y b] r r' Ha Hb H; simpl in *.
  - injection H as H. auto.
  - injection H as Hy _. subst y.
    apply andb_true_iff in Hb. destruct Hb as [Hb _]. congruence.
  - injection H as Hx _. subst x.
    apply andb_true_iff in Ha. destruct Ha as [Ha _]. congruence.
  - injection H as Hxy H. subst y.
    apply andb_true_iff in Ha. apply andb_true_iff in Hb.
    destruct (IH b r r' (proj2 Ha) (proj2 Hb) H) as [Hab Hr].
    subst. auto.
Qed.

(** X10: the formatted string of a marker determines its start line,
    its start column, its end column and its message: two markers give
    the same string exactly when they agree on these four.  The end line
    does not enter the string. *)
Theorem X10_formatMarker_tells_four_fields :
  forall m1 m2 : Marker,
    formatMarker m1 = formatMarker m2
    <-> (startLineNumber m1 = startLineNumber m2
         /\ startColumn m1 = startColumn m2
         /\ endColumn m1 = endColumn m2
         /\ message m1 = message m2).
Proof.
  intros m1 m2. rewrite !formatMarker_shape. split.
  - intro H. apply append_inj_l in H.
    destruct (split_at_nondigit " "%char eq_refl _ _
                ("columns " ++ decimal (startColumn m1) ++ "-"
                 ++ decimal (endColumn m1) ++ ": " ++ message m1)%string
                ("columns " ++ decimal (startColumn m2) ++ "-"
                 ++ decimal (endColumn m2) ++ ": " ++ message m2)%string
                (all_digits_decimal _) (all_digits_decimal _) H)
      as [Hline H1].
    apply append_inj_l in H1.
    destruct (split_at_nondigit "-"%char eq_refl _ _
                (decimal (endColumn m1) ++ ": " ++ message m1)%string
                (decimal (endColumn m2) ++ ": " ++ message m2)%string
                (all_digits_decimal _) (all_digits_decimal _) H1)
      as [Hcol H2].
    destruct (split_at_nondigit ":"%char eq_refl _ _
                (" " ++ message m1)%string (" " ++ message m2)%string
                (all_digits_decimal _) (all_digits_decimal _) H2)
      as [Hend H3].
    injection H3 as Hmsg.
    repeat split; auto using decimal_inj.
  - intros (-> & -> & -> & ->). reflexivity.
Qed.

Lemma X10_formatMarker_witness :
  startColumn (mkMarker 3 5 3 9 "bad token")
  = startColumn (mkMarker 3 5 8 9 "bad token").
Proof.
  apply (proj1 (X10_formatMarker_tells_four_fields
                  (mkMarker 3 5 3 9 "bad token")
                  (mkMarker 3 5 8 9 "bad token"))).
  reflexivity.
Defined.

(** ** When triggers run *)

Lemma runs_after_calm past tr :
  Forall (fun x => is_timer_run x = false) tr -> runs_after past tr.
Proof.
  intros Hcalm x Hin Hrun. rewrite Forall_forall in Hcalm.
  rewrite (Hcalm _ Hin) in Hrun. discriminate Hrun.
Qed.

Lemma runs_after_more past extra tr :
  runs_after past tr -> runs_after (past ++ extra) tr.
Proof.
  intros H x Hin Hrun. destruct (H x Hin Hrun) as (c & Hc & Heq).
  exists c. split; [apply in_or_app; left; exact Hc | exact Heq].
Qed.

Lemma runs_after_app past tr1 tr2 :
  runs_after past tr1 -> runs_after past tr2 -> runs_after past (tr1 ++ tr2).
Proof.
  intros H1 H2 x Hin. apply in_app_or in Hin. destruct Hin; auto.
Qed.

Lemma due_after_more past extra w :
  due_after past w -> due_after (past ++ extra) w.
Proof.
  intros H t Hin. destruct (H t Hin) as (c & Hc & Heq).
  exists c. split; [apply in_or_app; left; exact Hc | exact Heq].
Qed.

Lemma timing_step chars past ev w :
  Inv chars w ->
  due_after past w ->
  due_after (past ++ qualifying_times chars (clock w) [ev]) (fst (step ev w))
  /\ runs_after past (snd (step ev w))
  /\ clock (fst (step ev w)) = clock w + elapsed ev.
Proof.
  intros HI Hdue.
  destruct ev as [newValue e | editor | src monaco | dt]; cbn [elapsed].
  - destruct (change_Inv_cases _ newValue e _ HI)
      as (Htr & [(Hq & Hw) | (Hq & Hw & Hnew)]); rewrite Htr, Hw.
    + split; [apply due_after_more, Hdue|].
      split; [apply runs_after_calm; repeat constructor|]. lia.
    + split; [|split; [apply runs_after_calm; repeat constructor|]].
      * intros t Hin. rewrite Hnew in Hin. destruct Hin as [<- | []].
        exists (clock w). split; [|reflexivity].
        apply in_or_app. right. simpl. rewrite Hq. left. reflexivity.
      * change (clock (rescheduled w)) with (clock w). lia.
  - split; [apply due_after_more, Hdue|].
    split; [apply runs_after_calm; constructor|]. simpl. lia.
  - cbn [step]. rewrite dispatch_world.
    split; [apply due_after_more, Hdue|].
    split; [|lia].
    apply runs_after_calm, dispatch_calm, (Inv_listeners _ _ HI).
  - cbn [step].
    destruct (elapse_Inv_cases _ dt _ HI)
      as [(_ & Hel) | (t & captured & Hone & _ & _ & [(_ & Hel) | (_ & Hel)])];
      rewrite Hel; cbn [fst snd clock with_clock].
    + split; [apply due_after_more; exact Hdue|].
      split; [apply runs_after_calm; constructor | reflexivity].
    + split; [intros u []|]. split; [|reflexivity].
      intros x [<- | []] _.
      destruct (Hdue t) as (c & Hc & Heq); [rewrite Hone; left; reflexivity|].
      exists c. split; [exact Hc|]. destruct captured; exact Heq.
    + split; [apply due_after_more; exact Hdue|].
      split; [apply runs_after_calm; constructor | reflexivity].
Qed.

Lemma qualifying_times_cons chars start ev rest :
  qualifying_times chars start (ev :: rest)
  = qualifying_times chars start [ev]
    ++ qualifying_times chars (start + elapsed ev) rest.
Proof. simpl. rewrite app_nil_r. reflexivity. Qed.

Lemma timing_run chars evs :
  forall past w,
    Inv chars w ->
    due_after past w ->
    runs_after (past ++ qualifying_times chars (clock w) evs) (snd (run evs w)).
Proof.
  induction evs as [|ev rest IH]; intros past w HI Hdue.
  - intros x [].
  - destruct (timing_step _ _ ev _ HI Hdue) as (Hdue1 & Hruns & Hclock).
    rewrite run_cons. cbn [snd].
    rewrite qualifying_times_cons, app_assoc, <- Hclock.
    apply runs_after_app.
    + apply runs_after_more, runs_after_more, Hruns.
    + apply IH; [apply Inv_step, HI | exact Hdue1].
Qed.

(** X11: a trigger runs exactly one delay after a qualifying change
    event: in any run of a new component every suggestion request and
    every uncaught error is stamped 300 units after the arrival of some
    change event of the run whose first insertion is a trigger
    character. *)
Theorem X11_triggers_run_one_delay_after_a_qualifying_change :
  forall (chars : list string) (t0 : N) (evs : list Event) (x : N * Effect),
    In x (snd (run evs (boot chars t0))) ->
    is_timer_run x = true ->
    exists c, In c (qualifying_times chars t0 evs) /\ fst x = c + 300.
Proof.
  intros chars t0 evs.
  apply (timing_run chars evs [] (boot chars t0) (Inv_boot chars t0)).
  intros t [].
Qed.

Lemma X11_triggers_run_witness :
  exists c,
    In c (qualifying_times [":"] 5
            [EvMount (mkDiffEditor 1 2); EvChange "a:" (keystroke ":");
             EvElapse 200; EvChange "a::" (keystroke ":"); EvElapse 300])
    /\ 505 = c + 300.
Proof.
  apply (X11_triggers_run_one_delay_after_a_qualifying_change [":"] 5
           [EvMount (mkDiffEditor 1 2); EvChange "a:" (keystroke ":");
            EvElapse 200; EvChange "a::" (keystroke ":"); EvElapse 300]
           (suggest 505 2)).
  - vm_compute. right. right. left. reflexivity.
  - reflexivity.
Defined.
